(** * FormModal: step planning, validation and submission of the checklist form

    A shallow embedding of the form engine of the [FormModal] component:
    the work-task question filter, the category step plan, the two step
    validators ([validateCurrentStep], [canProceed]), the navigation
    handlers and the submission payload, followed by the properties the
    specification states about them.

    JavaScript values are modelled as the component uses them: strings
    are sequences of UTF-16 code units, identifiers are integers or
    [null], the response store maps question ids to untyped values, and
    the submitted object is a finite map from property names to fields. *)

From stdpp Require Import gmap strings list pretty.
From Stdlib Require Import ZArith NArith.

Local Open Scope Z_scope.

(** ** JavaScript primitives *)

Module Js.

(** A JavaScript string: its UTF-16 code units. *)
Abbreviation jsstring := (list N).

(** Literals are written as UTF-8 source text and decoded to code units
    (one, two and three byte sequences: the Basic Multilingual Plane). *)
Fixpoint decode_utf8 (bs : list N) : jsstring :=
  match bs with
  | [] => []
  | b :: rest =>
      if (b <? 128)%N then b :: decode_utf8 rest
      else if (b <? 224)%N then
        match rest with
        | c :: rest' => ((b - 192) * 64 + (c - 128))%N :: decode_utf8 rest'
        | [] => []
        end
      else
        match rest with
        | c :: d :: rest' =>
            ((b - 224) * 4096 + (c - 128) * 64 + (d - 128))%N
              :: decode_utf8 rest'
        | _ => []
        end
  end.

Definition lit (s : string) : jsstring :=
  decode_utf8 (Ascii.N_of_ascii <$> String.list_ascii_of_string s).

(** [WhiteSpace] and [LineTerminator] code units, the ones
    [String.prototype.trim] strips. *)
Definition is_whitespace (c : N) : bool :=
  ((9 <=? c) && (c <=? 13) || (c =? 32) || (c =? 160) || (c =? 5760)
   || (8192 <=? c) && (c <=? 8202) || (c =? 8232) || (c =? 8233)
   || (c =? 8239) || (c =? 8287) || (c =? 12288) || (c =? 65279))%N.

Fixpoint trimStart (s : jsstring) : jsstring :=
  match s with
  | [] => []
  | c :: rest => if is_whitespace c then trimStart rest else s
  end.

Definition trimEnd (s : jsstring) : jsstring :=
  reverse (trimStart (reverse s)).

Definition trim (s : jsstring) : jsstring := trimEnd (trimStart s).

(** [Array.prototype.join] on an array of strings. *)
Fixpoint join (sep : jsstring) (l : list jsstring) : jsstring :=
  match l with
  | [] => []
  | [x] => x
  | x :: rest => x ++ sep ++ join sep rest
  end.

(** The values a response slot can hold. *)
Inductive JsValue :=
| VUndefined
| VNull
| VBool (b : bool)
| VNum (n : Z)
| VStr (s : jsstring).

#[global] Instance JsValue_eq_dec : EqDecision JsValue.
Proof. solve_decision. Defined.

(** [a === b] on these values. *)
Definition strict_eq (a b : JsValue) : bool := bool_decide (a = b).

(** Truthiness of a string and of a [number | null] identifier. *)
Definition truthy_str (s : jsstring) : bool :=
  match s with [] => false | _ :: _ => true end.

Definition truthy_id (o : option Z) : bool :=
  match o with
  | Some n => negb (n =? 0)
  | None => false
  end.

(** [n === o] for a number [n] and a [number | null] value [o]. *)
Definition strict_eq_id (n : Z) (o : option Z) : bool :=
  match o with
  | Some m => n =? m
  | None => false
  end.

(** [a || null] for an optional number [a]. *)
Definition or_null (a : option Z) : option Z :=
  if truthy_id a then a else None.

(** [o?.flag] used as a condition: [undefined] is falsy. *)
Definition opt_flag {A} (flag : A → bool) (o : option A) : bool :=
  match o with
  | Some a => flag a
  | None => false
  end.

(** [arr.push(x)] on a local array. *)
Definition push {A} (arr : list A) (x : A) : list A := arr ++ [x].

End Js.

Import Js.

(** ** Data model (the shared schema types, as the component reads them) *)

Record Checklist := {
  c_id : Z;
  c_name : jsstring;
  includeWorkTasks : bool;
  includeWorkStations : bool;
  includeShifts : bool
}.

Record WorkTask := {
  wt_id : Z;
  wt_name : jsstring;
  hasStations : bool
}.

Record ChecklistWorkTask := {
  cwt_checklistId : Z;
  cwt_workTaskId : Z
}.

Record Category := {
  cat_id : Z;
  cat_name : jsstring
}.

Record Question := {
  q_id : Z;
  q_text : jsstring;
  q_type : jsstring;
  isRequired : bool;
  categoryId : Z
}.

#[global] Instance Category_eq_dec : EqDecision Category.
Proof. solve_decision. Defined.

#[global] Instance Question_eq_dec : EqDecision Question.
Proof. solve_decision. Defined.

Record QuestionWorkTask := {
  questionId : Z;
  qwt_workTaskId : Z
}.

Record FormData := {
  checklistId : option Z;
  operatorName : jsstring;
  workTaskId : option Z;
  workStationId : option Z;
  shiftId : option Z;
  responses : gmap Z JsValue
}.

(** The component state: the step counter and the form data. *)
Record State := {
  currentStep : Z;
  formData : FormData
}.

(** What one render reads besides its state: the prop and the query
    results (each defaults to the empty array while loading). *)
Record Env := {
  preselectedChecklistId : option Z;
  checklists : list Checklist;
  checklistWorkTasks : list ChecklistWorkTask;
  allWorkTasks : list WorkTask;
  categories : list Category;
  questions : list Question;
  allQuestionWorkTasks : list QuestionWorkTask
}.

(** A property of the submitted object. *)
Inductive Field :=
| FId (v : option Z)
| FString (s : jsstring)
| FResponses (r : gmap Z JsValue)
| FBool (b : bool).

(** What a handler does to the outside world, in order. *)
Inductive Effect :=
| Toast (title description : jsstring) (destructive : bool)
| InvalidateQueries (queryKey : string)
| OnClose
| Mutate (submitData : gmap string Field).

(** [formData.responses[id]]: an absent key reads as [undefined]. *)
Definition response_at (r : gmap Z JsValue) (id : Z) : JsValue :=
  default VUndefined (r !! id).

(** ** Derived values of a render *)

Module FormModal.

(** [checklists.find(c => c.id === formData.checklistId)] *)
Definition currentChecklist (env : Env) (fd : FormData) : option Checklist :=
  List.find (λ c, strict_eq_id (c_id c) (checklistId fd)) (checklists env).

(** The work tasks linked to the checklist. *)
Definition workTasks (env : Env) : list WorkTask :=
  List.filter
    (λ wt, existsb (λ cwt, cwt_workTaskId cwt =? wt_id wt)
                   (checklistWorkTasks env))
    (allWorkTasks env).

(** The callback of [questions.filter] in [filteredQuestions]. *)
Definition question_visible (links : list QuestionWorkTask)
    (selected : option Z) (question : Question) : bool :=
  let questionWorkTasks :=
    List.filter (λ qwt, questionId qwt =? q_id question) links in
  if (length questionWorkTasks =? 0)%nat then true
  else existsb (λ qwt, strict_eq_id (qwt_workTaskId qwt) selected)
               questionWorkTasks.

(** The body of the [filteredQuestions] memo, on its four dependencies. *)
Definition filterQuestions (qs : list Question)
    (links : list QuestionWorkTask) (selected : option Z)
    (usesWorkTasks : bool) : list Question :=
  if negb (truthy_id selected) || negb usesWorkTasks then qs
  else List.filter (question_visible links selected) qs.

Definition filteredQuestions (env : Env) (fd : FormData) : list Question :=
  filterQuestions (questions env) (allQuestionWorkTasks env) (workTaskId fd)
    (opt_flag includeWorkTasks (currentChecklist env fd)).

(** The step plan, on the category list and the filtered questions. *)
Definition planCategories (cats : list Category) (fqs : list Question)
    : list Category :=
  List.filter
    (λ category, existsb (λ question, categoryId question =? cat_id category)
                         fqs)
    cats.

Definition categoriesWithQuestions (env : Env) (fd : FormData)
    : list Category :=
  planCategories (categories env) (filteredQuestions env fd).

Definition totalStepsOf (plan : list Category) : Z :=
  1 + Z.of_nat (length plan).

Definition totalSteps (env : Env) (fd : FormData) : Z :=
  totalStepsOf (categoriesWithQuestions env fd).

(** [categoriesWithQuestions[currentStep - 3]] for [currentStep >= 3];
    an index past the end reads [undefined]. *)
Definition categoryAt (plan : list Category) (step : Z) : option Category :=
  plan !! Z.to_nat (step - 3).

(** ** Labels and notifications *)

Definition label_operatorName : jsstring := lit "Operatörsnamn".
Definition label_workTask : jsstring := lit "Arbetsuppgift".
Definition label_workStation : jsstring := lit "Arbetsstation".
Definition label_shift : jsstring := lit "Skift".

Definition quote : jsstring := [34%N].

Definition label_question (question : Question) : jsstring :=
  lit "Fråga: " ++ quote ++ q_text question ++ quote.

Definition toast_missing (missingFields : list jsstring) : Effect :=
  Toast (lit "Obligatoriska fält saknas")
        (lit "Följande fält måste fyllas i: " ++ join (lit ", ") missingFields)
        true.

Definition toast_saved : Effect :=
  Toast (lit "Kontroll sparad!")
        (lit "Ditt formulär har sparats framgångsrikt.") false.

Definition toast_failed : Effect :=
  Toast (lit "Fel") (lit "Kunde inte spara formuläret. Försök igen.") true.

(** ** validateCurrentStep *)

(** The identification branch: four independent tests, each pushing
    its label. *)
Definition validateIdentification (env : Env) (fd : FormData)
    (missingFields : list jsstring) : list jsstring :=
  let cc := currentChecklist env fd in
  let m1 :=
    if negb (truthy_str (trim (operatorName fd)))
    then push missingFields label_operatorName else missingFields in
  let m2 :=
    if opt_flag includeWorkTasks cc && negb (truthy_id (workTaskId fd))
    then push m1 label_workTask else m1 in
  let m3 :=
    if opt_flag includeWorkStations cc && truthy_id (workTaskId fd) then
      let selectedWorkTask :=
        List.find (λ task, strict_eq_id (wt_id task) (workTaskId fd))
                  (workTasks env) in
      if opt_flag hasStations selectedWorkTask
         && negb (truthy_id (workStationId fd))
      then push m2 label_workStation else m2
    else m2 in
  if opt_flag includeShifts cc && negb (truthy_id (shiftId fd))
  then push m3 label_shift else m3.

(** One turn of the loop over the category's questions. *)
Definition validateQuestion (fd : FormData) (question : Question)
    (missingFields : list jsstring) : list jsstring :=
  if isRequired question then
    let response := response_at (responses fd) (q_id question) in
    if bool_decide (q_type question = lit "check") then
      if negb (strict_eq response (VBool true))
      then push missingFields (label_question question) else missingFields
    else
      if strict_eq response VUndefined || strict_eq response VNull
         || strict_eq response (VStr [])
      then push missingFields (label_question question) else missingFields
  else missingFields.

Fixpoint validateQuestions (fd : FormData) (qs : list Question)
    (missingFields : list jsstring) : list jsstring :=
  match qs with
  | [] => missingFields
  | question :: rest =>
      validateQuestions fd rest (validateQuestion fd question missingFields)
  end.

(** The contents of [missingFields] when the branches are done. *)
Definition missingFieldsOf (env : Env) (st : State) : list jsstring :=
  let fd := formData st in
  let missingFields := [] in
  if currentStep st =? 2 then validateIdentification env fd missingFields
  else if 3 <=? currentStep st then
    match categoryAt (categoriesWithQuestions env fd) (currentStep st) with
    | Some category =>
        let categoryQuestions :=
          List.filter (λ q, categoryId q =? cat_id category)
                      (filteredQuestions env fd) in
        validateQuestions fd categoryQuestions missingFields
    | None => missingFields
    end
  else missingFields.

(** The verdict and the notification it raises. *)
Definition validateCurrentStep (env : Env) (st : State)
    : bool * list Effect :=
  let missingFields := missingFieldsOf env st in
  if (0 <? length missingFields)%nat
  then (false, [toast_missing missingFields])
  else (true, []).

(** ** canProceed *)

Fixpoint questionsAnswered (fd : FormData) (qs : list Question) : bool :=
  match qs with
  | [] => true
  | question :: rest =>
      if isRequired question then
        let response := response_at (responses fd) (q_id question) in
        if bool_decide (q_type question = lit "check") then
          if negb (strict_eq response (VBool true)) then false
          else questionsAnswered fd rest
        else
          if strict_eq response VUndefined || strict_eq response VNull
             || strict_eq response (VStr [])
          then false
          else questionsAnswered fd rest
      else questionsAnswered fd rest
  end.

Definition canProceed (env : Env) (st : State) : bool :=
  let fd := formData st in
  let cc := currentChecklist env fd in
  if currentStep st =? 2 then
    if negb (truthy_str (operatorName fd)) then false
    else if opt_flag includeWorkTasks cc && negb (truthy_id (workTaskId fd))
    then false
    else if
      (if opt_flag includeWorkStations cc && truthy_id (workTaskId fd) then
         let selectedWorkTask :=
           List.find (λ task, strict_eq_id (wt_id task) (workTaskId fd))
                     (workTasks env) in
         opt_flag hasStations selectedWorkTask
         && negb (truthy_id (workStationId fd))
       else false)
    then false
    else if opt_flag includeShifts cc && negb (truthy_id (shiftId fd))
    then false
    else true
  else if 3 <=? currentStep st then
    match categoryAt (categoriesWithQuestions env fd) (currentStep st) with
    | None => true
    | Some category =>
        let categoryQuestions :=
          List.filter (λ q, categoryId q =? cat_id category) (questions env) in
        questionsAnswered fd categoryQuestions
    end
  else true.

(** ** Submission *)

(** The object [handleSubmit] builds: four fixed properties, then one
    property per enabled checklist flag. *)
Definition submitData (env : Env) (fd : FormData) : gmap string Field :=
  let cc := currentChecklist env fd in
  let d0 : gmap string Field :=
    <["isCompleted" := FBool true]>
      (<["responses" := FResponses (responses fd)]>
        (<["operatorName" := FString (operatorName fd)]>
          (<["checklistId" := FId (checklistId fd)]> ∅))) in
  let d1 := if opt_flag includeWorkTasks cc
            then <["workTaskId" := FId (workTaskId fd)]> d0 else d0 in
  let d2 := if opt_flag includeWorkStations cc
            then <["workStationId" := FId (workStationId fd)]> d1 else d1 in
  if opt_flag includeShifts cc
  then <["shiftId" := FId (shiftId fd)]> d2 else d2.

Definition handleSubmit (env : Env) (st : State) : State * list Effect :=
  (st, [Mutate (submitData env (formData st))]).

Definition initialFormData (env : Env) : FormData :=
  {| checklistId := or_null (preselectedChecklistId env);
     operatorName := [];
     workTaskId := None;
     workStationId := None;
     shiftId := None;
     responses := ∅ |}.

Definition resetForm (env : Env) (st : State) : State :=
  {| currentStep := 2; formData := initialFormData env |}.

(** The state a freshly mounted form starts from. *)
Definition initialState (env : Env) : State :=
  {| currentStep := 2; formData := initialFormData env |}.

(** How the POST of [mutationFn] ended: [apiRequest] resolves, or throws
    on a network error or a non-ok status. *)
Inductive RequestOutcome := Resolved | Rejected.

Definition onSuccess (env : Env) (st : State) : State * list Effect :=
  (resetForm env st,
   [toast_saved; InvalidateQueries "/api/responses";
    InvalidateQueries "/api/dashboard/stats"; OnClose]).

Definition onError (env : Env) (st : State) : State * list Effect :=
  (st, [toast_failed]).

(** The mutation settling: the callback the outcome selects. *)
Definition submitMutation_settle (env : Env) (st : State)
    (outcome : RequestOutcome) : State * list Effect :=
  match outcome with
  | Resolved => onSuccess env st
  | Rejected => onError env st
  end.

(** ** Navigation *)

Definition handleNext (env : Env) (st : State) : State * list Effect :=
  let '(ok, shown) := validateCurrentStep env st in
  if negb ok then (st, shown)
  else if currentStep st <? totalSteps env (formData st) + 1 then
    ({| currentStep := currentStep st + 1; formData := formData st |}, shown)
  else
    let '(st', sent) := handleSubmit env st in (st', shown ++ sent).

Definition handlePrevious (st : State) : State :=
  if 2 <? currentStep st
  then {| currentStep := currentStep st - 1; formData := formData st |}
  else st.

(** A submission from start to end: the "next" click, then, when it sent
    the request, the mutation settling with the given outcome. *)
Definition clickNextThenSettle (env : Env) (st : State)
    (outcome : RequestOutcome) : State * list Effect :=
  let '(st1, effs) := handleNext env st in
  match last effs with
  | Some (Mutate _) =>
      let '(st2, effs2) := submitMutation_settle env st1 outcome in
      (st2, effs ++ effs2)
  | _ => (st1, effs)
  end.

End FormModal.

Import FormModal.

(** ** The widgets of a step, the effects and the event loop *)

Module FormWidgets.

Record WorkStation := {
  ws_id : Z;
  ws_name : jsstring;
  ws_workTaskId : Z
}.

Record Shift := {
  sh_id : Z;
  sh_name : jsstring;
  startTime : jsstring;
  endTime : jsstring
}.

#[global] Instance WorkTask_eq_dec : EqDecision WorkTask.
Proof. solve_decision. Defined.

#[global] Instance WorkStation_eq_dec : EqDecision WorkStation.
Proof. solve_decision. Defined.

#[global] Instance Shift_eq_dec : EqDecision Shift.
Proof. solve_decision. Defined.

(** The two query results only the select boxes read. *)
Record Choices := {
  workStations : list WorkStation;
  shifts : list Shift
}.

Definition withFormData (st : State) (fd : FormData) : State :=
  {| currentStep := currentStep st; formData := fd |}.

(** The operator input: [{...prev, operatorName: e.target.value}]. *)
Definition onOperatorNameChange (value : jsstring) (prev : FormData)
    : FormData :=
  {| checklistId := checklistId prev; operatorName := value;
     workTaskId := workTaskId prev; workStationId := workStationId prev;
     shiftId := shiftId prev; responses := responses prev |}.

(** The work-task select, on the parsed identifier of the chosen item:
    the station is kept only when the chosen task has stations. *)
Definition onWorkTaskChange (env : Env) (taskId : Z) (prev : FormData)
    : FormData :=
  let selectedTask := List.find (λ task, wt_id task =? taskId) (workTasks env) in
  {| checklistId := checklistId prev; operatorName := operatorName prev;
     workTaskId := Some taskId;
     workStationId :=
       if opt_flag hasStations selectedTask then workStationId prev else None;
     shiftId := shiftId prev; responses := responses prev |}.

(** The work-station and shift selects, on the parsed identifier. *)
Definition onWorkStationChange (stationId : Z) (prev : FormData) : FormData :=
  {| checklistId := checklistId prev; operatorName := operatorName prev;
     workTaskId := workTaskId prev; workStationId := Some stationId;
     shiftId := shiftId prev; responses := responses prev |}.

Definition onShiftChange (shift : Z) (prev : FormData) : FormData :=
  {| checklistId := checklistId prev; operatorName := operatorName prev;
     workTaskId := workTaskId prev; workStationId := workStationId prev;
     shiftId := Some shift; responses := responses prev |}.

(** Every answer widget:
    [responses: {...prev.responses, [question.id]: value}]. *)
Definition onResponseChange (id : Z) (value : JsValue) (prev : FormData)
    : FormData :=
  {| checklistId := checklistId prev; operatorName := operatorName prev;
     workTaskId := workTaskId prev; workStationId := workStationId prev;
     shiftId := shiftId prev; responses := <[id := value]> (responses prev) |}.

(** What the checkbox reports: a boolean or ["indeterminate"]. *)
Inductive CheckedState := Checked (b : bool) | Indeterminate.

(** [checked === true] *)
Definition is_checked (checked : CheckedState) : bool :=
  match checked with Checked b => b | Indeterminate => false end.

Definition onCheckedChange (id : Z) (checked : CheckedState)
    (prev : FormData) : FormData :=
  onResponseChange id (VBool (is_checked checked)) prev.

(** The effect that selects the only work task, or drops the selection
    when there is none to choose from. *)
Definition autoSelectWorkTask (env : Env) (prev : FormData) : FormData :=
  if (length (workTasks env) =? 1)%nat
     && bool_decide (workTaskId prev = None) then
    match workTasks env with
    | task :: _ =>
        {| checklistId := checklistId prev; operatorName := operatorName prev;
           workTaskId := Some (wt_id task);
           workStationId := workStationId prev;
           shiftId := shiftId prev; responses := responses prev |}
    | [] => prev
    end
  else if (length (workTasks env) =? 0)%nat
          && negb (bool_decide (workTaskId prev = None)) then
    {| checklistId := checklistId prev; operatorName := operatorName prev;
       workTaskId := None; workStationId := None;
       shiftId := shiftId prev; responses := responses prev |}
  else prev.

(** The effect on [isOpen] turning false. *)
Definition onModalClosed (env : Env) (st : State) : State :=
  {| currentStep := 2; formData := initialFormData env |}.

(** The footer button shows the submit label on this test. *)
Definition showsSubmit (env : Env) (st : State) : bool :=
  currentStep st =? totalSteps env (formData st) + 1.

(** The questions [renderStep] lays out when [currentStep] is not 2:
    those of [categoriesWithQuestions[currentStep - 3]], none when that
    entry is [undefined]. *)
Definition renderedQuestions (env : Env) (st : State) : list Question :=
  if currentStep st =? 2 then []
  else
    match
      (if 3 <=? currentStep st
       then categoryAt (categoriesWithQuestions env (formData st))
                       (currentStep st)
       else None)
    with
    | Some category =>
        List.filter (λ q, categoryId q =? cat_id category)
                    (filteredQuestions env (formData st))
    | None => []
    end.

(** The values the widget of a question type can store. *)
Definition widgetStores (type : jsstring) (value : JsValue) : bool :=
  let is_type (name : string) := bool_decide (type = lit name) in
  match value with
  | VStr _ =>
      is_type "text" || is_type "val" || is_type "nummer"
      || is_type "datum" || is_type "date" || is_type "fil"
  | VBool _ => is_type "ja_nej" || is_type "boolean" || is_type "check"
  | VNum n =>
      (is_type "stjärnor" || is_type "humör") && (1 <=? n) && (n <=? 5)
  | VUndefined | VNull => false
  end.

(** What can happen to an open form. *)
Inductive Event :=
| TypeOperatorName (value : jsstring)
| ChooseWorkTask (task : WorkTask)
| ChooseWorkStation (station : WorkStation)
| ChooseShift (shift : Shift)
| Answer (question : Question) (value : JsValue)
| ClickNext
| ClickPrevious
| MutationSettled (outcome : RequestOutcome)
| ModalClosed.

(** Whether the widget behind an event is on screen and enabled, and
    offers that item or value. *)
Definition offered (env : Env) (ch : Choices) (st : State) (ev : Event)
    : bool :=
  let fd := formData st in
  let cc := currentChecklist env fd in
  let onIdentification := currentStep st =? 2 in
  match ev with
  | TypeOperatorName _ => onIdentification
  | ChooseWorkTask task =>
      onIdentification && opt_flag includeWorkTasks cc
      && bool_decide (task ∈ workTasks env)
  | ChooseWorkStation station =>
      onIdentification && opt_flag includeWorkStations cc
      && negb (negb (truthy_id (workTaskId fd))
               || negb (opt_flag hasStations
                          (List.find
                             (λ task, strict_eq_id (wt_id task) (workTaskId fd))
                             (workTasks env))))
      && bool_decide (station ∈ workStations ch)
      && strict_eq_id (ws_workTaskId station) (workTaskId fd)
  | ChooseShift shift =>
      onIdentification && opt_flag includeShifts cc
      && bool_decide (shift ∈ shifts ch)
  | Answer question value =>
      bool_decide (question ∈ renderedQuestions env st)
      && widgetStores (q_type question) value
  | ClickNext | ClickPrevious | MutationSettled _ | ModalClosed => true
  end.

(** The handler of an event. *)
Definition handle (env : Env) (st : State) (ev : Event)
    : State * list Effect :=
  match ev with
  | TypeOperatorName value =>
      (withFormData st (onOperatorNameChange value (formData st)), [])
  | ChooseWorkTask task =>
      (withFormData st (onWorkTaskChange env (wt_id task) (formData st)), [])
  | ChooseWorkStation station =>
      (withFormData st (onWorkStationChange (ws_id station) (formData st)), [])
  | ChooseShift shift =>
      (withFormData st (onShiftChange (sh_id shift) (formData st)), [])
  | Answer question value =>
      (withFormData st (onResponseChange (q_id question) value (formData st)),
       [])
  | ClickNext => handleNext env st
  | ClickPrevious => (handlePrevious st, [])
  | MutationSettled outcome => submitMutation_settle env st outcome
  | ModalClosed => (onModalClosed env st, [])
  end.

(** One turn of the event loop: the handler of an offered event, then
    the work-task effect on the new state (the effect is idempotent, so
    running it after every event is running it when its dependencies
    changed, once the form is opened). *)
Definition dispatch (env : Env) (ch : Choices) (st : State) (ev : Event)
    : State * list Effect :=
  if offered env ch st ev then
    let '(st', effs) := handle env st ev in
    (withFormData st' (autoSelectWorkTask env (formData st')), effs)
  else (st, []).

Fixpoint run (env : Env) (ch : Choices) (st : State) (evs : list Event)
    : State * list Effect :=
  match evs with
  | [] => (st, [])
  | ev :: rest =>
      let '(st1, effs1) := dispatch env ch st ev in
      let '(st2, effs2) := run env ch st1 rest in
      (st2, effs1 ++ effs2)
  end.

(** The state of a form just opened, once the effects have run. *)
Definition openedState (env : Env) : State :=
  withFormData (initialState env)
    (autoSelectWorkTask env (formData (initialState env))).

End FormWidgets.

Import FormWidgets.

(** ** The two fetch loops of the form *)

Module FormQueries.

(** One turn of either loop: the fetched items are pushed, a failure is
    logged under the item's identifier and the loop goes on. *)
Definition pushFetched {B} (fetched : option (list B)) (id : Z)
    (acc : list B * list Z) : list B * list Z :=
  match fetched with
  | Some items => (acc.1 ++ items, acc.2)
  | None => (acc.1, acc.2 ++ [id])
  end.

(** The [queryFn] of the questions query: one request per category, in
    category order. [fetch id] is what [apiRequest] and [response.json()]
    give for [/api/questions?categoryId=id], [None] when either throws.
    The result is the collected questions and the identifiers warned
    about. *)
Fixpoint questionsLoop (fetch : Z → option (list Question))
    (cats : list Category) (acc : list Question * list Z)
    : list Question * list Z :=
  match cats with
  | [] => acc
  | category :: rest =>
      questionsLoop fetch rest
        (pushFetched (fetch (cat_id category)) (cat_id category) acc)
  end.

Definition questionsQueryFn (fetch : Z → option (list Question))
    (cats : list Category) : list Question * list Z :=
  if (length cats =? 0)%nat then ([], [])
  else questionsLoop fetch cats ([], []).

(** The [queryFn] of the question-work-task query: one request per
    question, in question order. *)
Fixpoint questionWorkTasksLoop (fetch : Z → option (list QuestionWorkTask))
    (qs : list Question) (acc : list QuestionWorkTask * list Z)
    : list QuestionWorkTask * list Z :=
  match qs with
  | [] => acc
  | question :: rest =>
      questionWorkTasksLoop fetch rest
        (pushFetched (fetch (q_id question)) (q_id question) acc)
  end.

Definition questionWorkTasksQueryFn
    (fetch : Z → option (list QuestionWorkTask)) (qs : list Question)
    : list QuestionWorkTask * list Z :=
  if (length qs =? 0)%nat then ([], [])
  else questionWorkTasksLoop fetch qs ([], []).

End FormQueries.

Import FormQueries.

(** ** The request helpers of [queryClient.ts] *)

Module QueryClient.

(** What the helpers read of a fetch [Response]. *)
Record Response := {
  status : Z;
  body : jsstring;
  statusText : jsstring
}.

(** [res.ok]: the status is in the range 200-299. *)
Definition ok (res : Response) : bool :=
  (200 <=? status res) && (status res <=? 299).

(** The browser state the helpers touch. *)
Record Browser := {
  localStorage : gmap string jsstring;
  href : jsstring
}.

(** A call returns a value or throws an [Error] with a message. *)
Inductive Outcome (A : Type) :=
| Returned (a : A)
| Thrown (message : jsstring).
Arguments Returned {A} a.
Arguments Thrown {A} message.

(** The request [fetch] is called with. *)
Record Request := {
  endpoint : jsstring;
  method : option jsstring;
  headers : gmap string jsstring;
  requestBody : option jsstring;
  credentials : jsstring
}.

Definition throwIfResNotOk (res : Response) (b : Browser)
    : Outcome () * Browser :=
  if negb (ok res) then
    let text := if truthy_str (body res) then body res else statusText res in
    let b' :=
      if status res =? 401 then
        {| localStorage :=
             delete "auth_tenant"
               (delete "auth_user" (delete "auth_token" (localStorage b)));
           href := lit "/login" |}
      else b in
    (Thrown (lit (pretty (status res)) ++ lit ": " ++ text), b')
  else (Returned (), b).

(** The [Authorization] header, when a non-empty [authToken] is stored. *)
Definition withToken (b : Browser) (h : gmap string jsstring)
    : gmap string jsstring :=
  match localStorage b !! "authToken" with
  | Some token =>
      if truthy_str token
      then <["Authorization" := lit "Bearer " ++ token]> h
      else h
  | None => h
  end.

Section Requests.

(** The request data ([unknown] in the source), with its truthiness and
    [JSON.stringify]; the parsed JSON of a response; and the network. *)
Context {Data Json : Type}.
Variable truthy : Data → bool.
Variable stringify : Data → jsstring.
Variable json : Response → Outcome Json.
Variable fetch : Request → Outcome Response.

(** The two call formats of [apiRequest]. *)
Inductive ApiArgs :=
| Legacy (method : jsstring) (url : jsstring) (data : option Data)
| Options (endpoint : jsstring) (method : jsstring) (data : option Data).

Definition apiRequest_request (args : ApiArgs) (b : Browser) : Request :=
  let '(endpoint, method, requestData) :=
    match args with
    | Legacy method url data => (url, method, data)
    | Options endpoint method data => (endpoint, method, data)
    end in
  let sendsData := opt_flag truthy requestData in
  let headers : gmap string jsstring :=
    if sendsData then {["Content-Type" := lit "application/json"]} else ∅ in
  {| endpoint := endpoint;
     method := Some method;
     headers := withToken b headers;
     requestBody :=
       if sendsData then stringify <$> requestData else None;
     credentials := lit "include" |}.

Definition apiRequest (args : ApiArgs) (b : Browser)
    : Outcome Response * Browser :=
  match fetch (apiRequest_request args b) with
  | Thrown message => (Thrown message, b)
  | Returned res =>
      match throwIfResNotOk res b with
      | (Thrown message, b') => (Thrown message, b')
      | (Returned _, b') => (Returned res, b')
      end
  end.

Inductive UnauthorizedBehavior := returnNull | throw.

(** [unauthorizedBehavior === "returnNull"] *)
Definition is_returnNull (behavior : UnauthorizedBehavior) : bool :=
  match behavior with returnNull => true | throw => false end.

Definition query_request (queryKey0 : jsstring) (b : Browser) : Request :=
  {| endpoint := queryKey0;
     method := None;
     headers := withToken b ∅;
     requestBody := None;
     credentials := lit "include" |}.

(** [getQueryFn({on401})({queryKey})]; [None] is the [null] result. *)
Definition getQueryFn (unauthorizedBehavior : UnauthorizedBehavior)
    (queryKey0 : jsstring) (b : Browser) : Outcome (option Json) * Browser :=
  match fetch (query_request queryKey0 b) with
  | Thrown message => (Thrown message, b)
  | Returned res =>
      if is_returnNull unauthorizedBehavior && (status res =? 401)
      then (Returned None, b)
      else
        match throwIfResNotOk res b with
        | (Thrown message, b') => (Thrown message, b')
        | (Returned _, b') =>
            match json res with
            | Returned value => (Returned (Some value), b')
            | Thrown message => (Thrown message, b')
            end
        end
  end.

(** The default [queryFn] of the exported [queryClient]. *)
Definition defaultQueryFn (queryKey0 : jsstring) (b : Browser)
    : Outcome Json * Browser :=
  match fetch (query_request queryKey0 b) with
  | Thrown message => (Thrown message, b)
  | Returned res =>
      match throwIfResNotOk res b with
      | (Thrown message, b') => (Thrown message, b')
      | (Returned _, b') => (json res, b')
      end
  end.

End Requests.

End QueryClient.

(** * Specification predicates *)

(** What the specification calls visible under work task [w]: no link
    entry at all, or a link entry carrying [w]. *)
Definition visible_under (links : list QuestionWorkTask) (w : Z)
    (q : Question) : Prop :=
  Forall (λ l, questionId l ≠ q_id q) links
  ∨ Exists (λ l, questionId l = q_id q ∧ qwt_workTaskId l = w) links.

#[local] Instance visible_under_dec links w q :
  Decision (visible_under links w q).
Proof. unfold visible_under. apply _. Defined.

(** A category has a question among [fqs]. *)
Definition has_question (fqs : list Question) (c : Category) : Prop :=
  Exists (λ q, categoryId q = cat_id c) fqs.

#[local] Instance has_question_dec fqs c : Decision (has_question fqs c).
Proof. unfold has_question. apply _. Defined.

(** The specification's verdict on one question: required, and either a
    checkbox whose response is not [true], or another type whose response
    is [undefined], [null] or the empty string. *)
Definition answer_missing (fd : FormData) (q : Question) : Prop :=
  isRequired q = true ∧
  if decide (q_type q = lit "check")
  then response_at (responses fd) (q_id q) ≠ VBool true
  else response_at (responses fd) (q_id q) = VUndefined
       ∨ response_at (responses fd) (q_id q) = VNull
       ∨ response_at (responses fd) (q_id q) = VStr [].

#[local] Instance answer_missing_dec fd q : Decision (answer_missing fd q).
Proof. unfold answer_missing. destruct (decide (q_type q = _)); apply _. Defined.

(** The questions the step at [currentStep st] shows under [category]. *)
Definition categoryQuestions (env : Env) (fd : FormData)
    (category : Category) : list Question :=
  List.filter (λ q, categoryId q =? cat_id category)
              (filteredQuestions env fd).

(** A label, present when its condition holds. *)
Definition when (P : Prop) `{!Decision P} (label : jsstring)
    : list jsstring :=
  if decide P then [label] else [].

(** The work task [workTasks.find] returns for the selected identifier. *)
Definition selectedWorkTask (env : Env) (fd : FormData) : option WorkTask :=
  List.find (λ task, strict_eq_id (wt_id task) (workTaskId fd))
            (workTasks env).

(** The four requirements of the identification step, in the words of
    the specification. *)
Definition operator_blank (fd : FormData) : Prop :=
  trim (operatorName fd) = [].

Definition workTask_wanted (env : Env) (fd : FormData) : Prop :=
  opt_flag includeWorkTasks (currentChecklist env fd) = true
  ∧ truthy_id (workTaskId fd) = false.

Definition workStation_wanted (env : Env) (fd : FormData) : Prop :=
  opt_flag includeWorkStations (currentChecklist env fd) = true
  ∧ truthy_id (workTaskId fd) = true
  ∧ hasStations <$> selectedWorkTask env fd = Some true
  ∧ truthy_id (workStationId fd) = false.

Definition shift_wanted (env : Env) (fd : FormData) : Prop :=
  opt_flag includeShifts (currentChecklist env fd) = true
  ∧ truthy_id (shiftId fd) = false.

#[local] Instance operator_blank_dec fd : Decision (operator_blank fd).
Proof. unfold operator_blank. apply _. Defined.
#[local] Instance workTask_wanted_dec env fd :
  Decision (workTask_wanted env fd).
Proof. unfold workTask_wanted. apply _. Defined.
#[local] Instance workStation_wanted_dec env fd :
  Decision (workStation_wanted env fd).
Proof. unfold workStation_wanted. apply _. Defined.
#[local] Instance shift_wanted_dec env fd : Decision (shift_wanted env fd).
Proof. unfold shift_wanted. apply _. Defined.

(** Closed disequalities and comparisons, by evaluation. *)
Ltac by_evaluation :=
  vm_compute;
  first [ reflexivity | discriminate
        | let H := fresh in intros H; discriminate H ].

Definition payload_keys : gset string :=
  list_to_set ["checklistId"; "operatorName"; "responses"; "isCompleted";
               "workTaskId"; "workStationId"; "shiftId"].

(** * Sample data *)

Definition env_filter_demo : Env :=
  {| preselectedChecklistId := Some 1;
     checklists := [ {| c_id := 1; c_name := lit "Daglig kontroll";
                        includeWorkTasks := true;
                        includeWorkStations := false;
                        includeShifts := false |} ];
     checklistWorkTasks := [ {| cwt_checklistId := 1; cwt_workTaskId := 7 |} ];
     allWorkTasks := [ {| wt_id := 7; wt_name := lit "Svets";
                          hasStations := false |} ];
     categories := [ {| cat_id := 10; cat_name := lit "Safety" |};
                     {| cat_id := 11; cat_name := lit "Quality" |} ];
     questions :=
       [ {| q_id := 100; q_text := lit "Skydd"; q_type := lit "check";
            isRequired := true; categoryId := 11 |};
         {| q_id := 101; q_text := lit "Antal"; q_type := lit "nummer";
            isRequired := true; categoryId := 10 |};
         {| q_id := 102; q_text := lit "Kommentar"; q_type := lit "text";
            isRequired := false; categoryId := 11 |} ];
     allQuestionWorkTasks :=
       [ {| questionId := 101; qwt_workTaskId := 8 |};
         {| questionId := 102; qwt_workTaskId := 7 |} ] |}.

Definition fd_filter_demo : FormData :=
  {| checklistId := Some 1; operatorName := lit "Anna";
     workTaskId := Some 7; workStationId := None; shiftId := None;
     responses := ∅ |}.

Definition env_station_demo : Env :=
  {| preselectedChecklistId := Some 1;
     checklists := [ {| c_id := 1; c_name := lit "Skiftkontroll";
                        includeWorkTasks := true;
                        includeWorkStations := true;
                        includeShifts := false |} ];
     checklistWorkTasks := [ {| cwt_checklistId := 1; cwt_workTaskId := 7 |} ];
     allWorkTasks := [ {| wt_id := 7; wt_name := lit "Montering";
                          hasStations := true |} ];
     categories := [ {| cat_id := 10; cat_name := lit "Kontroll" |} ];
     questions :=
       [ {| q_id := 1; q_text := lit "Skydd monterat"; q_type := lit "check";
            isRequired := true; categoryId := 10 |};
         {| q_id := 2; q_text := lit "Antal fel"; q_type := lit "nummer";
            isRequired := true; categoryId := 10 |};
         {| q_id := 3; q_text := lit "Typ"; q_type := lit "val";
            isRequired := true; categoryId := 10 |} ];
     allQuestionWorkTasks := [ {| questionId := 3; qwt_workTaskId := 8 |} ] |}.

Definition fd_station_demo (name : jsstring) (station : option Z)
    (answers : gmap Z JsValue) : FormData :=
  {| checklistId := Some 1; operatorName := name;
     workTaskId := Some 7; workStationId := station; shiftId := None;
     responses := answers |}.

(** Whitespace-only operator name, everything else in place. *)
Definition st_blank_operator : State :=
  {| currentStep := 2;
     formData := fd_station_demo (lit "  ") (Some 5) ∅ |}.

(** The shown questions are answered; question 3 is required, unanswered
    and hidden under the selected work task. *)
Definition st_hidden_question : State :=
  {| currentStep := 3;
     formData := fd_station_demo (lit "Anna") (Some 5)
                   (<[1 := VBool true]> (<[2 := VStr (lit "5")]> ∅)) |}.

Definition q_check : Question :=
  {| q_id := 1; q_text := lit "Skydd monterat"; q_type := lit "check";
     isRequired := true; categoryId := 10 |}.

Definition q_number : Question :=
  {| q_id := 2; q_text := lit "Antal fel"; q_type := lit "nummer";
     isRequired := true; categoryId := 10 |}.

Definition cat_kontroll : Category :=
  {| cat_id := 10; cat_name := lit "Kontroll" |}.

(** Checkbox left unticked (stored [false]), number answered [0]. *)
Definition st_unticked : State :=
  {| currentStep := 3;
     formData := fd_station_demo (lit "Anna") (Some 5)
                   (<[1 := VBool false]> (<[2 := VNum 0]> ∅)) |}.

(** Number field cleared to the empty string. *)
Definition st_cleared_number : State :=
  {| currentStep := 3;
     formData := fd_station_demo (lit "Anna") (Some 5)
                   (<[1 := VBool true]> (<[2 := VStr []]> ∅)) |}.

(** The last step of the demo form: step 3 of a one-category plan. *)
Definition st_last_step : State :=
  {| currentStep := 3;
     formData := fd_station_demo (lit "Anna") (Some 5)
                   (<[1 := VBool true]> (<[2 := VStr (lit "5")]> ∅)) |}.

(** A checklist whose categories have not resolved yet. *)
Definition env_no_categories : Env :=
  {| preselectedChecklistId := Some 1;
     checklists := [ {| c_id := 1; c_name := lit "Tom";
                        includeWorkTasks := false;
                        includeWorkStations := false;
                        includeShifts := false |} ];
     checklistWorkTasks := []; allWorkTasks := [];
     categories := []; questions := []; allQuestionWorkTasks := [] |}.

Definition st_only_step : State :=
  {| currentStep := 2;
     formData := {| checklistId := Some 1; operatorName := lit "Anna";
                    workTaskId := None; workStationId := None;
                    shiftId := None; responses := ∅ |} |}.

(** One step past the last category step of the demo form. *)
Definition st_past_end : State :=
  {| currentStep := 4; formData := fd_station_demo (lit "Anna") (Some 5) ∅ |}.

(** Identification filled in, nothing answered yet. *)
Definition st_identified : State :=
  {| currentStep := 2; formData := fd_station_demo (lit "Anna") (Some 5) ∅ |}.

Definition ws_demo : WorkStation :=
  {| ws_id := 5; ws_name := lit "Station 5"; ws_workTaskId := 7 |}.

Definition choices_demo : Choices :=
  {| workStations := [ws_demo]; shifts := [] |}.

(** A whole session on the demo form, from opening it to the submit
    click. *)
Definition session_demo : list Event :=
  [ TypeOperatorName (lit "Anna"); ChooseWorkStation ws_demo; ClickNext;
    Answer q_check (VBool true); Answer q_number (VStr (lit "5"));
    ClickNext ].

Definition q_comment : Question :=
  {| q_id := 102; q_text := lit "Kommentar"; q_type := lit "text";
     isRequired := false; categoryId := 11 |}.

Definition q_count : Question :=
  {| q_id := 101; q_text := lit "Antal"; q_type := lit "nummer";
     isRequired := true; categoryId := 10 |}.

(** The request for category 10 fails, the one for category 11 brings a
    question. *)
Definition fetch_questions_demo (id : Z) : option (list Question) :=
  if id =? 11 then Some [q_comment] else None.

Definition env_fetched_demo : Env :=
  {| preselectedChecklistId := preselectedChecklistId env_filter_demo;
     checklists := checklists env_filter_demo;
     checklistWorkTasks := checklistWorkTasks env_filter_demo;
     allWorkTasks := allWorkTasks env_filter_demo;
     categories := categories env_filter_demo;
     questions := [q_comment];
     allQuestionWorkTasks := allQuestionWorkTasks env_filter_demo |}.

(** The link request fails for every question but 102. *)
Definition fetch_links_demo (id : Z) : option (list QuestionWorkTask) :=
  if id =? 102 then Some [ {| questionId := 102; qwt_workTaskId := 8 |} ]
  else None.

Definition env_links_demo : Env :=
  {| preselectedChecklistId := preselectedChecklistId env_filter_demo;
     checklists := checklists env_filter_demo;
     checklistWorkTasks := checklistWorkTasks env_filter_demo;
     allWorkTasks := allWorkTasks env_filter_demo;
     categories := categories env_filter_demo;
     questions := questions env_filter_demo;
     allQuestionWorkTasks := [ {| questionId := 102; qwt_workTaskId := 8 |} ]
  |}.

(** * Predicates on reachable states *)

(** The step counter points at the identification step or at a planned
    category step. *)
Definition inRange (env : Env) (st : State) : Prop :=
  2 ≤ currentStep st ≤ totalSteps env (formData st) + 1.

(** Nothing is missing on step [j] of the form data [fd]. *)
Definition stepValid (env : Env) (fd : FormData) (j : Z) : Prop :=
  missingFieldsOf env {| currentStep := j; formData := fd |} = [].

(** The whole form is filled in: the identification step has nothing to
    report, and every shown question of a fetched category has its
    answer. *)
Definition complete (env : Env) (fd : FormData) : Prop :=
  validateIdentification env fd [] = []
  ∧ ∀ q, q ∈ filteredQuestions env fd →
         (∃ c, c ∈ categories env ∧ cat_id c = categoryId q) →
         ¬ answer_missing fd q.

(** The work-task effect has nothing left to do. *)
Definition settled (env : Env) (fd : FormData) : Prop :=
  autoSelectWorkTask env fd = fd.

(** What the event loop keeps true of an open form. *)
Definition wizardInv (env : Env) (st : State) : Prop :=
  inRange env st
  ∧ settled env (formData st)
  ∧ ∀ j, 2 ≤ j < currentStep st → stepValid env (formData st) j.

(** [n] clicks on "next" in a row. *)
Fixpoint clickNextTimes (env : Env) (st : State) (n : nat)
    : State * list Effect :=
  match n with
  | O => (st, [])
  | S n' =>
      let '(st1, effs1) := handleNext env st in
      let '(st2, effs2) := clickNextTimes env st1 n' in
      (st2, effs1 ++ effs2)
  end.


(** * Properties *)

(** ** Array helpers against their logical reading *)

Section ArrayFacts.
Context {A : Type}.
Implicit Types (f : A → bool) (l : list A).

(** [Array.prototype.filter] with a boolean callback is the list filter
    on any predicate the callback decides. *)
Lemma filter_callback f (P : A → Prop) `{!∀ x, Decision (P x)} l :
  (∀ x, f x = true ↔ P x) → List.filter f l = filter P l.
Proof.
  intros Hf. induction l as [|x l IH]; [done|].
  cbn [List.filter]. rewrite filter_cons, IH.
  destruct (f x) eqn:Hx, (decide (P x)) as [HP|HP]; try done.
  - exfalso. apply HP, Hf, Hx.
  - apply Hf in HP. congruence.
Qed.

Lemma elem_of_filter_callback f l x :
  x ∈ List.filter f l ↔ x ∈ l ∧ f x = true.
Proof. rewrite !list_elem_of_In. apply filter_In. Qed.

Lemma some_callback f l :
  existsb f l = true ↔ Exists (λ x, f x = true) l.
Proof.
  rewrite existsb_exists, Exists_exists.
  split; intros (x & Hx & Hfx); exists x; split; try done;
    by apply list_elem_of_In.
Qed.

Lemma filter_callback_sublist f l : sublist (List.filter f l) l.
Proof.
  induction l as [|x l IH]; cbn [List.filter]; [done|].
  destruct (f x); by constructor.
Qed.

Lemma filter_length_zero f l :
  (length (List.filter f l) =? 0)%nat = true ↔ Forall (λ x, f x = false) l.
Proof.
  rewrite Nat.eqb_eq. induction l as [|x l IH]; cbn [List.filter].
  - split; [constructor | done].
  - destruct (f x) eqn:Hx; cbn [length].
    + split; [lia | inversion 1; congruence].
    + rewrite IH. split; [by constructor | by inversion 1].
Qed.

End ArrayFacts.

Lemma truthy_id_true o : truthy_id o = true ↔ ∃ w, o = Some w ∧ w ≠ 0.
Proof.
  destruct o as [n|]; cbn.
  - rewrite negb_true_iff, Z.eqb_neq. split; [by exists n|].
    by intros (w & [= ->] & Hw).
  - split; [done|]. by intros (w & ? & _).
Qed.

Lemma truthy_id_false o : truthy_id o = false ↔ o = None ∨ o = Some 0.
Proof.
  destruct o as [n|]; cbn.
  - rewrite negb_false_iff, Z.eqb_eq. split; [intros ->; by right|].
    by intros [|[= ->]].
  - split; [by left | done].
Qed.

(** ** The question filter *)

Lemma question_visible_spec links w q :
  question_visible links (Some w) q = true ↔ visible_under links w q.
Proof.
  unfold question_visible, visible_under.
  destruct (length _ =? 0)%nat eqn:Hlen.
  - apply filter_length_zero in Hlen. split; [intros _; left | done].
    eapply Forall_impl; [exact Hlen|]. cbn. intros l Hl. lia.
  - rewrite some_callback, Exists_exists. split.
    + intros (l & Hin & Hw). right. apply Exists_exists.
      apply elem_of_filter_callback in Hin as [Hin Hq].
      exists l. cbn in Hw. split; [done|]. lia.
    + intros [Hnone|Hsome].
      * exfalso. apply not_true_iff_false in Hlen. apply Hlen.
        apply filter_length_zero. eapply Forall_impl; [exact Hnone|].
        cbn. intros l Hl. lia.
      * apply Exists_exists in Hsome as (l & Hin & Hq & Hw).
        exists l. split; [|cbn; lia].
        apply elem_of_filter_callback. split; [done|lia].
Qed.

Lemma filterQuestions_all qs links selected uses :
  uses = false ∨ truthy_id selected = false →
  filterQuestions qs links selected uses = qs.
Proof.
  unfold filterQuestions. intros [->| ->]; [|done].
  by rewrite orb_true_r.
Qed.

Lemma filterQuestions_selected qs links w :
  w ≠ 0 →
  filterQuestions qs links (Some w) true = filter (visible_under links w) qs.
Proof.
  intros Hw. unfold filterQuestions. cbn.
  destruct (Z.eqb_spec w 0) as [|_]; [done|]. cbn.
  apply filter_callback. intros q. apply question_visible_spec.
Qed.

(** C2. The question filter returns the questions unchanged, in their
    order, when the checklist does not use work tasks or no work task is
    selected (the identifier is [null], or the falsy [0]); otherwise it
    keeps, in order, exactly the questions that have no entry in the link
    table or have an entry carrying the selected work task. *)
Theorem filteredQuestions_spec (env : Env) (fd : FormData) :
  let uses := opt_flag includeWorkTasks (currentChecklist env fd) in
  (uses = false ∨ truthy_id (workTaskId fd) = false →
     filteredQuestions env fd = questions env)
  ∧ (∀ w, uses = true → workTaskId fd = Some w → w ≠ 0 →
       filteredQuestions env fd
         = filter (visible_under (allQuestionWorkTasks env) w) (questions env)
       ∧ ∀ q, q ∈ filteredQuestions env fd ↔
           q ∈ questions env ∧
           ((∀ l, l ∈ allQuestionWorkTasks env → questionId l ≠ q_id q)
            ∨ ∃ l, l ∈ allQuestionWorkTasks env ∧ questionId l = q_id q
                   ∧ qwt_workTaskId l = w)).
Proof.
  intros uses. split.
  - intros H. by apply filterQuestions_all.
  - intros w Huses Hsel Hw. unfold filteredQuestions.
    fold uses. rewrite Huses, Hsel.
    rewrite (filterQuestions_selected _ _ _ Hw). split; [done|].
    intros q. rewrite list_elem_of_filter. unfold visible_under.
    rewrite Forall_forall, Exists_exists. tauto.
Qed.

Example filteredQuestions_demo :
  q_id <$> filteredQuestions env_filter_demo fd_filter_demo = [100; 102].
Proof. reflexivity. Qed.

Lemma filteredQuestions_spec_witness :
  filteredQuestions env_filter_demo fd_filter_demo
  = filter (visible_under (allQuestionWorkTasks env_filter_demo) 7)
           (questions env_filter_demo).
Proof.
  apply (proj2 (filteredQuestions_spec env_filter_demo fd_filter_demo) 7);
    [reflexivity | reflexivity | lia].
Defined.

(** ** The step plan *)

Lemma planCategories_filter cats fqs :
  planCategories cats fqs = filter (has_question fqs) cats.
Proof.
  apply filter_callback. intros c. rewrite some_callback.
  unfold has_question. rewrite !Exists_exists.
  split; intros (q & Hq & Hc); exists q; split; try done; lia.
Qed.

Lemma elem_of_planCategories cats fqs c :
  c ∈ planCategories cats fqs ↔
  c ∈ cats ∧ ∃ q, q ∈ fqs ∧ categoryId q = cat_id c.
Proof.
  rewrite planCategories_filter, list_elem_of_filter.
  unfold has_question. rewrite Exists_exists. tauto.
Qed.

(** C3. For every category list and every filtered question list, the
    planned steps are the sub-sequence of the category list made of
    exactly the categories with at least one filtered question of that
    [categoryId]; a category without one never appears; and the step
    count is one more than the number of such categories. *)
Theorem planCategories_spec (cats : list Category) (fqs : list Question) :
  planCategories cats fqs = filter (has_question fqs) cats
  ∧ sublist (planCategories cats fqs) cats
  ∧ (∀ c, c ∈ planCategories cats fqs ↔
          c ∈ cats ∧ ∃ q, q ∈ fqs ∧ categoryId q = cat_id c)
  ∧ (∀ c, (∀ q, q ∈ fqs → categoryId q ≠ cat_id c) →
          c ∉ planCategories cats fqs)
  ∧ totalStepsOf (planCategories cats fqs)
    = 1 + Z.of_nat (length (filter (has_question fqs) cats)).
Proof.
  split; [apply planCategories_filter|].
  split; [apply filter_callback_sublist|].
  split; [apply elem_of_planCategories|].
  split.
  - intros c Hnone [_ (q & Hq & Hc)]%elem_of_planCategories.
    by apply (Hnone q).
  - unfold totalStepsOf. by rewrite planCategories_filter.
Qed.

(** The component's plan is that function on the fetched categories and
    the filtered questions. *)
Lemma categoriesWithQuestions_plan env fd :
  categoriesWithQuestions env fd
  = filter (has_question (filteredQuestions env fd)) (categories env)
  ∧ totalSteps env fd
    = 1 + Z.of_nat (length (categoriesWithQuestions env fd)).
Proof. split; [apply planCategories_filter | done]. Qed.

(** Scenario C: every question of "Safety" is linked to another work
    task, so the category is planned out and not counted. *)
Example scenario_C :
  cat_id <$> categoriesWithQuestions env_filter_demo fd_filter_demo = [11]
  ∧ totalSteps env_filter_demo fd_filter_demo = 2.
Proof. split; reflexivity. Qed.

(** ** Question steps of the validator *)

Lemma strict_eq_true a b : strict_eq a b = true ↔ a = b.
Proof. unfold strict_eq. apply bool_decide_eq_true. Qed.

Lemma strict_eq_false a b : strict_eq a b = false ↔ a ≠ b.
Proof. unfold strict_eq. apply bool_decide_eq_false. Qed.

Lemma empty_test_true r :
  strict_eq r VUndefined || strict_eq r VNull || strict_eq r (VStr []) = true
  ↔ r = VUndefined ∨ r = VNull ∨ r = VStr [].
Proof. rewrite !orb_true_iff, !strict_eq_true. tauto. Qed.

(** One turn of the loop appends the question's label exactly when the
    answer is missing. *)
Lemma validateQuestion_spec fd q acc :
  validateQuestion fd q acc
  = acc ++ (if decide (answer_missing fd q) then [label_question q] else []).
Proof.
  assert (validateQuestion fd q acc = acc ++ [label_question q]
          ∧ answer_missing fd q
          ∨ validateQuestion fd q acc = acc ∧ ¬ answer_missing fd q)
    as [[-> Hm]|[-> Hm]].
  { unfold validateQuestion, answer_missing, push.
    destruct (isRequired q); [|right; split; [done | by intros [? _]]].
    destruct (decide (q_type q = lit "check")) as [Hty|Hty].
    - rewrite (bool_decide_eq_true_2 _ Hty).
      destruct (strict_eq _ _) eqn:Hr; cbn.
      + apply strict_eq_true in Hr. right. split; [done | by intros [_ ?]].
      + apply strict_eq_false in Hr. by left.
    - rewrite (bool_decide_eq_false_2 _ Hty).
      match goal with |- (if ?b then _ else _) = _ ∧ _ ∨ _ =>
        destruct b eqn:Hr end.
      + apply empty_test_true in Hr. by left.
      + right. split; [done|]. intros [_ Hm%empty_test_true]. congruence. }
  - by rewrite decide_True.
  - by rewrite decide_False, app_nil_r.
Qed.

(** The whole loop: the labels of the questions with a missing answer,
    in question order, after what was collected before. *)
Lemma validateQuestions_spec fd qs acc :
  validateQuestions fd qs acc
  = acc ++ (label_question <$> filter (answer_missing fd) qs).
Proof.
  revert acc. induction qs as [|q qs IH]; intros acc; cbn [validateQuestions].
  - by rewrite filter_nil, app_nil_r.
  - rewrite IH, validateQuestion_spec, filter_cons.
    destruct (decide (answer_missing fd q)); cbn.
    + by rewrite <- app_assoc.
    + by rewrite app_nil_r.
Qed.

Lemma elem_of_categoryQuestions env fd category q :
  q ∈ categoryQuestions env fd category ↔
  q ∈ filteredQuestions env fd ∧ categoryId q = cat_id category.
Proof.
  unfold categoryQuestions. rewrite elem_of_filter_callback, Z.eqb_eq. tauto.
Qed.

Lemma missingFieldsOf_question_step env st category :
  3 ≤ currentStep st →
  categoryAt (categoriesWithQuestions env (formData st)) (currentStep st)
    = Some category →
  missingFieldsOf env st
  = label_question <$>
      filter (answer_missing (formData st))
             (categoryQuestions env (formData st) category).
Proof.
  intros Hstep Hcat. unfold missingFieldsOf.
  destruct (Z.eqb_spec (currentStep st) 2) as [|_]; [lia|].
  destruct (Z.leb_spec 3 (currentStep st)); [|lia].
  rewrite Hcat. by rewrite validateQuestions_spec.
Qed.

Lemma validateCurrentStep_verdict env st :
  (validateCurrentStep env st).1 = bool_decide (missingFieldsOf env st = []).
Proof.
  unfold validateCurrentStep.
  destruct (missingFieldsOf env st) as [|x l]; cbn; done.
Qed.

Lemma validateCurrentStep_ok env st :
  (validateCurrentStep env st).1 = true ↔ missingFieldsOf env st = [].
Proof. rewrite validateCurrentStep_verdict. apply bool_decide_eq_true. Qed.

Lemma validateCurrentStep_fail env st x :
  x ∈ missingFieldsOf env st → (validateCurrentStep env st).1 = false.
Proof.
  intros Hx. rewrite validateCurrentStep_verdict. apply bool_decide_eq_false.
  intros Hnil. rewrite Hnil in Hx. by apply not_elem_of_nil in Hx.
Qed.

Lemma label_question_inj q q' :
  label_question q = label_question q' → q_text q = q_text q'.
Proof.
  unfold label_question. intros H.
  apply app_inv_head, app_inv_head in H. by apply app_inv_tail in H.
Qed.

(** A label is on the list exactly on account of a shown question with a
    missing answer and that label. *)
Lemma elem_of_missing_question_step env st category x :
  3 ≤ currentStep st →
  categoryAt (categoriesWithQuestions env (formData st)) (currentStep st)
    = Some category →
  x ∈ missingFieldsOf env st ↔
  ∃ q, q ∈ filteredQuestions env (formData st)
       ∧ categoryId q = cat_id category
       ∧ answer_missing (formData st) q ∧ x = label_question q.
Proof.
  intros Hstep Hcat.
  rewrite (missingFieldsOf_question_step _ _ _ Hstep Hcat), list_elem_of_fmap.
  split.
  - intros (q & -> & [Hm Hq]%list_elem_of_filter).
    apply elem_of_categoryQuestions in Hq as [??]. by exists q.
  - intros (q & Hq & Hc & Hm & ->). exists q. split; [done|].
    apply list_elem_of_filter. split; [done|].
    by apply elem_of_categoryQuestions.
Qed.

(** C4. On a question step, a required checkbox question that is shown
    is reported missing whenever its stored response is not exactly the
    boolean [true]: in particular when it is [false], [undefined], or
    absent from the store. When the response is [true] the question's
    turn of the loop adds nothing, and its label is not on the list
    unless another shown question carries the same text. *)
Theorem required_checkbox_strict (env : Env) (st : State)
    (category : Category) (question : Question) :
  3 ≤ currentStep st →
  categoryAt (categoriesWithQuestions env (formData st)) (currentStep st)
    = Some category →
  question ∈ filteredQuestions env (formData st) →
  categoryId question = cat_id category →
  isRequired question = true →
  q_type question = lit "check" →
  let stored := responses (formData st) !! q_id question in
  let response := response_at (responses (formData st)) (q_id question) in
  (response ≠ VBool true →
     label_question question ∈ missingFieldsOf env st
     ∧ (validateCurrentStep env st).1 = false)
  ∧ (stored = None ∨ stored = Some VUndefined ∨ stored = Some (VBool false) →
     label_question question ∈ missingFieldsOf env st
     ∧ (validateCurrentStep env st).1 = false)
  ∧ (response = VBool true →
     (∀ acc, validateQuestion (formData st) question acc = acc)
     ∧ ((∀ q', q' ∈ filteredQuestions env (formData st) →
               categoryId q' = cat_id category →
               q_text q' = q_text question → q' = question) →
        label_question question ∉ missingFieldsOf env st)).
Proof.
  intros Hstep Hcat Hin Hc Hreq Hty stored response.
  assert (response ≠ VBool true →
          label_question question ∈ missingFieldsOf env st
          ∧ (validateCurrentStep env st).1 = false) as Hmiss.
  { intros Hr.
    assert (label_question question ∈ missingFieldsOf env st) as Hl.
    { apply (elem_of_missing_question_step _ _ _ _ Hstep Hcat).
      exists question. repeat split; try done.
      unfold answer_missing. by rewrite decide_True. }
    split; [done | by eapply validateCurrentStep_fail]. }
  assert (response = VBool true → ¬ answer_missing (formData st) question)
    as Hsat.
  { intros Hr [_ Hm]. by rewrite decide_True in Hm. }
  split; [done|]. split.
  - intros Hs. apply Hmiss. subst response. unfold response_at. fold stored.
    by destruct Hs as [->|[->| ->]].
  - intros Hr. split.
    + intros acc. rewrite validateQuestion_spec, decide_False; [|by apply Hsat].
      apply app_nil_r.
    + intros Huniq
        (q' & Hin' & Hc' & Hm & Hl)%(elem_of_missing_question_step
                                       _ _ _ _ Hstep Hcat).
      apply label_question_inj in Hl.
      rewrite (Huniq q' Hin' Hc' (eq_sym Hl)) in Hm. by apply Hsat.
Qed.

(** C5. On a question step, a required question of any type other than
    checkbox that is shown is reported missing whenever its stored
    response is [undefined] (or absent), [null] or the empty string; for
    any other response, [false] and [0] included, its turn of the loop
    adds nothing, and its label is not on the list unless another shown
    question carries the same text. *)
Theorem required_other_emptiness (env : Env) (st : State)
    (category : Category) (question : Question) :
  3 ≤ currentStep st →
  categoryAt (categoriesWithQuestions env (formData st)) (currentStep st)
    = Some category →
  question ∈ filteredQuestions env (formData st) →
  categoryId question = cat_id category →
  isRequired question = true →
  q_type question ≠ lit "check" →
  let response := response_at (responses (formData st)) (q_id question) in
  let empty := response = VUndefined ∨ response = VNull ∨ response = VStr [] in
  (empty →
     label_question question ∈ missingFieldsOf env st
     ∧ (validateCurrentStep env st).1 = false)
  ∧ (¬ empty →
     (∀ acc, validateQuestion (formData st) question acc = acc)
     ∧ ((∀ q', q' ∈ filteredQuestions env (formData st) →
               categoryId q' = cat_id category →
               q_text q' = q_text question → q' = question) →
        label_question question ∉ missingFieldsOf env st))
  ∧ (response = VBool false ∨ response = VNum 0 → ¬ empty)
  ∧ (answer_missing (formData st) question ↔ empty).
Proof.
  intros Hstep Hcat Hin Hc Hreq Hty response empty.
  assert (answer_missing (formData st) question ↔ empty) as Hiff.
  { unfold answer_missing, empty, response.
    rewrite decide_False by done. tauto. }
  split; [|split; [|split; [|done]]].
  - intros He.
    assert (label_question question ∈ missingFieldsOf env st) as Hl.
    { apply (elem_of_missing_question_step _ _ _ _ Hstep Hcat).
      exists question. repeat split; try done. by apply Hiff. }
    split; [done | by eapply validateCurrentStep_fail].
  - intros He. split.
    + intros acc. rewrite validateQuestion_spec, decide_False; [|by rewrite Hiff].
      apply app_nil_r.
    + intros Huniq
        (q' & Hin' & Hc' & Hm & Hl)%(elem_of_missing_question_step
                                       _ _ _ _ Hstep Hcat).
      apply label_question_inj in Hl.
      rewrite (Huniq q' Hin' Hc' (eq_sym Hl)) in Hm. by apply He, Hiff.
  - unfold empty. intros [->| ->]; intros [|[|]]; done.
Qed.

(** ** Out-of-range question steps *)

Lemma categoryAt_out_of_range (plan : list Category) (step : Z) :
  3 ≤ step → Z.of_nat (length plan) ≤ step - 3 → categoryAt plan step = None.
Proof. intros H3 Hlen. unfold categoryAt. apply lookup_ge_None. lia. Qed.

(** C10. At a step index of 3 or more whose offset [currentStep - 3]
    is past the end of the planned category list, the category lookup
    reads [undefined] and both validators accept the step:
    [validateCurrentStep] collects nothing, raises no notification and
    returns [true], and [canProceed] returns [true]. *)
Theorem out_of_range_step_valid (env : Env) (st : State) :
  3 ≤ currentStep st →
  Z.of_nat (length (categoriesWithQuestions env (formData st)))
    ≤ currentStep st - 3 →
  missingFieldsOf env st = []
  ∧ validateCurrentStep env st = (true, [])
  ∧ canProceed env st = true.
Proof.
  intros Hstep Hout.
  pose proof (categoryAt_out_of_range _ _ Hstep Hout) as Hcat.
  assert (missingFieldsOf env st = []) as Hnil.
  { unfold missingFieldsOf.
    destruct (Z.eqb_spec (currentStep st) 2) as [|_]; [lia|].
    destruct (Z.leb_spec 3 (currentStep st)); [|lia]. by rewrite Hcat. }
  split; [done|]. split.
  - unfold validateCurrentStep. by rewrite Hnil.
  - unfold canProceed.
    destruct (Z.eqb_spec (currentStep st) 2) as [|_]; [lia|].
    destruct (Z.leb_spec 3 (currentStep st)); [|lia]. by rewrite Hcat.
Qed.

(** ** The identification step of the validator *)

Lemma trimStart_cases s :
  trimStart s = [] ∧ Forall (λ c, is_whitespace c = true) s
  ∨ ∃ c r, trimStart s = c :: r ∧ is_whitespace c = false.
Proof.
  induction s as [|c s IH]; cbn [trimStart]; [left; by split|].
  destruct (is_whitespace c) eqn:Hc.
  - destruct IH as [[-> Hall]|IH]; [left; split; [done | by constructor] | by right].
  - right. by exists c, s.
Qed.

Lemma trimStart_nil s :
  trimStart s = [] ↔ Forall (λ c, is_whitespace c = true) s.
Proof.
  split.
  - intros Hs. destruct (trimStart_cases s) as [[_ ?]|(c & r & Hcr & _)];
      [done | congruence].
  - induction 1 as [|c s Hc _ IH]; cbn [trimStart]; [done | by rewrite Hc].
Qed.

(** [s.trim()] is the empty string exactly when [s] holds nothing but
    whitespace. *)
Lemma trim_nil s : trim s = [] ↔ Forall (λ c, is_whitespace c = true) s.
Proof.
  unfold trim, trimEnd. split.
  - intros H. apply (f_equal reverse) in H.
    rewrite reverse_involutive, reverse_nil in H.
    apply trimStart_nil in H. rewrite Forall_reverse in H.
    destruct (trimStart_cases s) as [[_ ?]|(c & r & Hcr & Hc)]; [done|].
    rewrite Hcr in H. apply Forall_cons in H as [H _]. congruence.
  - intros H. apply trimStart_nil in H. by rewrite H.
Qed.

Lemma when_callback (b : bool) (P : Prop) `{!Decision P} label :
  (b = true ↔ P) → (if b then [label] else []) = when P label.
Proof.
  intros Hb. unfold when. destruct b, (decide P) as [HP|HP]; try done.
  - exfalso. by apply HP, Hb.
  - apply Hb in HP. congruence.
Qed.

Lemma elem_of_when (P : Prop) `{!Decision P} label x :
  x ∈ when P label ↔ P ∧ x = label.
Proof.
  unfold when. destruct (decide P).
  - rewrite list_elem_of_singleton. tauto.
  - split; [by intros ?%not_elem_of_nil | tauto].
Qed.

Lemma opt_flag_hasStations (o : option WorkTask) :
  opt_flag hasStations o = true ↔ hasStations <$> o = Some true.
Proof.
  destruct o as [task|]; cbn; [|done].
  split; [by intros -> | by intros [= ->]].
Qed.

(** The four tests push independently: the result is what was there,
    then one optional label per test, in source order. *)
Lemma validateIdentification_spec env fd acc :
  validateIdentification env fd acc
  = acc ++ when (operator_blank fd) label_operatorName
        ++ when (workTask_wanted env fd) label_workTask
        ++ when (workStation_wanted env fd) label_workStation
        ++ when (shift_wanted env fd) label_shift.
Proof.
  rewrite <- (when_callback (negb (truthy_str (trim (operatorName fd))))).
  2:{ unfold operator_blank. by destruct (trim (operatorName fd)). }
  rewrite <- (when_callback
    (opt_flag includeWorkTasks (currentChecklist env fd)
     && negb (truthy_id (workTaskId fd)))).
  2:{ unfold workTask_wanted.
      by rewrite andb_true_iff, negb_true_iff. }
  rewrite <- (when_callback
    (opt_flag includeWorkStations (currentChecklist env fd)
     && truthy_id (workTaskId fd)
     && (opt_flag hasStations (selectedWorkTask env fd)
         && negb (truthy_id (workStationId fd))))).
  2:{ unfold workStation_wanted.
      rewrite !andb_true_iff, negb_true_iff, opt_flag_hasStations. tauto. }
  rewrite <- (when_callback
    (opt_flag includeShifts (currentChecklist env fd)
     && negb (truthy_id (shiftId fd)))).
  2:{ unfold shift_wanted. by rewrite andb_true_iff, negb_true_iff. }
  unfold validateIdentification, push. fold (selectedWorkTask env fd).
  generalize label_operatorName, label_workTask, label_workStation,
    label_shift.
  intros l1 l2 l3 l4.
  destruct (negb (truthy_str _)),
    (opt_flag includeWorkTasks _ && negb _),
    (opt_flag includeWorkStations _ && truthy_id _),
    (opt_flag hasStations _ && negb _),
    (opt_flag includeShifts _ && negb _);
    cbn [andb]; by rewrite <- ?app_assoc, ?app_nil_r.
Qed.

Lemma missingFieldsOf_identification env st :
  currentStep st = 2 →
  missingFieldsOf env st
  = when (operator_blank (formData st)) label_operatorName
    ++ when (workTask_wanted env (formData st)) label_workTask
    ++ when (workStation_wanted env (formData st)) label_workStation
    ++ when (shift_wanted env (formData st)) label_shift.
Proof.
  intros Hstep. unfold missingFieldsOf.
  destruct (Z.eqb_spec (currentStep st) 2) as [_|]; [|done].
  apply validateIdentification_spec.
Qed.

(** Four optional labels, pairwise distinct: each is on the list exactly
    when its own condition holds. *)
Lemma elem_of_four_when (P1 P2 P3 P4 : Prop)
    `{!Decision P1, !Decision P2, !Decision P3, !Decision P4}
    (l1 l2 l3 l4 : jsstring) :
  l1 ≠ l2 → l1 ≠ l3 → l1 ≠ l4 → l2 ≠ l3 → l2 ≠ l4 → l3 ≠ l4 →
  let l := when P1 l1 ++ when P2 l2 ++ when P3 l3 ++ when P4 l4 in
  (l1 ∈ l ↔ P1) ∧ (l2 ∈ l ↔ P2) ∧ (l3 ∈ l ↔ P3) ∧ (l4 ∈ l ↔ P4).
Proof.
  intros ?????? l. subst l.
  rewrite !elem_of_app, !elem_of_when. intuition congruence.
Qed.

(** C6. On the identification step the collected list is, in this
    order and with every test evaluated: the operator-name label when
    the trimmed operator name is empty; the work-task label when the
    checklist includes work tasks and none is selected; the work-station
    label when the checklist includes work stations, a work task is
    selected, that task has [hasStations = true] and no station is
    selected (never when the task has [hasStations = false]); the shift
    label when the checklist includes shifts and none is selected. *)
Theorem identification_missing (env : Env) (st : State) :
  currentStep st = 2 →
  let fd := formData st in
  let cc := currentChecklist env fd in
  let missing := missingFieldsOf env st in
  missing
  = when (trim (operatorName fd) = []) label_operatorName
    ++ when (opt_flag includeWorkTasks cc = true
             ∧ truthy_id (workTaskId fd) = false) label_workTask
    ++ when (opt_flag includeWorkStations cc = true
             ∧ truthy_id (workTaskId fd) = true
             ∧ hasStations <$> selectedWorkTask env fd = Some true
             ∧ truthy_id (workStationId fd) = false) label_workStation
    ++ when (opt_flag includeShifts cc = true
             ∧ truthy_id (shiftId fd) = false) label_shift
  ∧ (label_operatorName ∈ missing ↔
       Forall (λ c, is_whitespace c = true) (operatorName fd))
  ∧ (label_workTask ∈ missing ↔
       opt_flag includeWorkTasks cc = true ∧ truthy_id (workTaskId fd) = false)
  ∧ (label_workStation ∈ missing ↔
       opt_flag includeWorkStations cc = true
       ∧ truthy_id (workTaskId fd) = true
       ∧ (∃ task, selectedWorkTask env fd = Some task
                  ∧ hasStations task = true)
       ∧ truthy_id (workStationId fd) = false)
  ∧ (∀ task, selectedWorkTask env fd = Some task →
             hasStations task = false → label_workStation ∉ missing)
  ∧ (label_shift ∈ missing ↔
       opt_flag includeShifts cc = true ∧ truthy_id (shiftId fd) = false).
Proof.
  intros Hstep fd cc missing.
  pose proof (missingFieldsOf_identification env st Hstep) as Hm.
  fold missing fd in Hm.
  assert ((label_operatorName ∈ missing ↔ operator_blank fd)
          ∧ (label_workTask ∈ missing ↔ workTask_wanted env fd)
          ∧ (label_workStation ∈ missing ↔ workStation_wanted env fd)
          ∧ (label_shift ∈ missing ↔ shift_wanted env fd))
    as (Hop & Hwt & Hws & Hsh).
  { rewrite Hm. apply elem_of_four_when; by_evaluation. }
  split; [exact Hm|]. split; [|split; [|split; [|split]]].
  - rewrite Hop. apply trim_nil.
  - exact Hwt.
  - rewrite Hws. unfold workStation_wanted. fold cc.
    destruct (selectedWorkTask env fd) as [task|]; cbn [fmap option_fmap option_map].
    + split.
      * intros (? & ? & [= Hs] & ?). repeat split; try done. by exists task.
      * intros (? & ? & (t & [= <-] & Hs) & ?). by rewrite Hs.
    + split; [by intros (? & ? & ? & ?) | by intros (? & ? & (t & ? & _) & ?)].
  - intros task Hsel Hs. rewrite Hws. unfold workStation_wanted.
    rewrite Hsel. cbn [fmap option_fmap option_map]. rewrite Hs.
    by intros (_ & _ & ? & _).
  - exact Hsh.
Qed.

(** ** The submission payload *)

(** C7. Whatever the checklist configuration and the session, the
    submitted object carries [checklistId], [operatorName], the stored
    responses as they are and [isCompleted = true]; it has a
    [workTaskId] property exactly when the checklist includes work
    tasks, a [workStationId] property exactly when it includes work
    stations and a [shiftId] property exactly when it includes shifts,
    each decided by its own flag alone, and it has no other property. *)
Theorem submitData_shape (env : Env) (fd : FormData) :
  let cc := currentChecklist env fd in
  let d := submitData env fd in
  d !! "checklistId" = Some (FId (checklistId fd))
  ∧ d !! "operatorName" = Some (FString (operatorName fd))
  ∧ d !! "responses" = Some (FResponses (responses fd))
  ∧ d !! "isCompleted" = Some (FBool true)
  ∧ (is_Some (d !! "workTaskId") ↔ opt_flag includeWorkTasks cc = true)
  ∧ (is_Some (d !! "workStationId") ↔ opt_flag includeWorkStations cc = true)
  ∧ (is_Some (d !! "shiftId") ↔ opt_flag includeShifts cc = true)
  ∧ d !! "workTaskId"
    = (if opt_flag includeWorkTasks cc
       then Some (FId (workTaskId fd)) else None)
  ∧ d !! "workStationId"
    = (if opt_flag includeWorkStations cc
       then Some (FId (workStationId fd)) else None)
  ∧ d !! "shiftId"
    = (if opt_flag includeShifts cc then Some (FId (shiftId fd)) else None)
  ∧ dom d ⊆ payload_keys.
Proof.
  intros cc d. subst d. unfold submitData. fold cc.
  destruct (opt_flag includeWorkTasks cc),
    (opt_flag includeWorkStations cc), (opt_flag includeShifts cc);
    (repeat split;
     [ by simplify_map_eq .. | ]);
    unfold payload_keys; rewrite !dom_insert_L, dom_empty_L; set_solver.
Qed.

(** [handleSubmit] hands exactly that object to the mutation. *)
Lemma handleSubmit_sends env st :
  handleSubmit env st = (st, [Mutate (submitData env (formData st))]).
Proof. done. Qed.

(** ** Navigation and the end of a submission *)

(** The three ways a "next" click can end. *)
Lemma handleNext_spec env st :
  handleNext env st
  = if negb (bool_decide (missingFieldsOf env st = []))
    then (st, [toast_missing (missingFieldsOf env st)])
    else if currentStep st <? totalSteps env (formData st) + 1
    then ({| currentStep := currentStep st + 1; formData := formData st |}, [])
    else (st, [Mutate (submitData env (formData st))]).
Proof.
  unfold handleNext, validateCurrentStep, handleSubmit.
  destruct (missingFieldsOf env st) as [|x l]; cbn; [|done].
  by destruct (_ <? _).
Qed.

Lemma handleNext_sends env st d :
  last (handleNext env st).2 = Some (Mutate d) →
  handleNext env st = (st, [Mutate (submitData env (formData st))]).
Proof.
  rewrite handleNext_spec.
  destruct (negb _); [done|]. by destruct (_ <? _).
Qed.

(** C8. When the request fails the mutation leaves the whole component
    state (step counter, operator name, selections and responses) as it
    was and only raises the failure notification; when it succeeds the
    state goes back to its initial value and the close callback is
    called last. The same holds for a whole submission started by a
    "next" click that sent the request. *)
Theorem submission_outcome (env : Env) (st : State) :
  submitMutation_settle env st Rejected = (st, [toast_failed])
  ∧ (submitMutation_settle env st Resolved).1 = initialState env
  ∧ last (submitMutation_settle env st Resolved).2 = Some OnClose
  ∧ (∀ d, last (handleNext env st).2 = Some (Mutate d) →
       (clickNextThenSettle env st Rejected).1 = st
       ∧ (OnClose ∉ (clickNextThenSettle env st Rejected).2)
       ∧ (clickNextThenSettle env st Resolved).1 = initialState env
       ∧ last (clickNextThenSettle env st Resolved).2 = Some OnClose).
Proof.
  split; [done|]. split; [done|]. split; [done|].
  intros d Hsent. unfold clickNextThenSettle.
  rewrite (handleNext_sends _ _ _ Hsent). cbn.
  repeat split; try done.
  intros Hin. apply list_elem_of_In in Hin. cbn in Hin.
  by destruct Hin as [|[|]].
Qed.

(** C9. When no category has a question, the step count is 1, no step
    index resolves to a category, and a "next" click on the
    identification step whose validation passes sends the submission and
    leaves the step counter where it is. *)
Theorem zero_categories_submit (env : Env) (st : State) :
  categoriesWithQuestions env (formData st) = [] →
  totalSteps env (formData st) = 1
  ∧ (∀ step,
       categoryAt (categoriesWithQuestions env (formData st)) step = None)
  ∧ (currentStep st = 2 →
     (validateCurrentStep env st).1 = true →
     handleNext env st = (st, [Mutate (submitData env (formData st))])).
Proof.
  intros Hnone. split; [|split].
  - unfold totalSteps. by rewrite Hnone.
  - intros step. by rewrite Hnone.
  - intros Hstep Hok. apply validateCurrentStep_ok in Hok.
    rewrite handleNext_spec, Hok. cbn.
    unfold totalSteps. rewrite Hnone, Hstep. done.
Qed.

(** ** canProceed against validateCurrentStep *)

Lemma questionsAnswered_cons fd q qs :
  questionsAnswered fd (q :: qs)
  = if decide (answer_missing fd q) then false else questionsAnswered fd qs.
Proof.
  assert (questionsAnswered fd (q :: qs) = false ∧ answer_missing fd q
          ∨ questionsAnswered fd (q :: qs) = questionsAnswered fd qs
            ∧ ¬ answer_missing fd q) as [[-> Hm]|[-> Hm]].
  { cbn [questionsAnswered]. unfold answer_missing.
    destruct (isRequired q); [|right; split; [done | by intros [? _]]].
    destruct (decide (q_type q = lit "check")) as [Hty|Hty].
    - rewrite (bool_decide_eq_true_2 _ Hty).
      destruct (strict_eq _ _) eqn:Hr; cbn.
      + apply strict_eq_true in Hr. right. split; [done | by intros [_ ?]].
      + apply strict_eq_false in Hr. by left.
    - rewrite (bool_decide_eq_false_2 _ Hty).
      match goal with |- (if ?b then _ else _) = _ ∧ _ ∨ _ =>
        destruct b eqn:Hr end.
      + apply empty_test_true in Hr. by left.
      + right. split; [done|]. intros [_ Hm%empty_test_true]. congruence. }
  - by rewrite decide_True.
  - by rewrite decide_False.
Qed.

(** The early-return loop of [canProceed] accepts a question list
    exactly when the collecting loop would report nothing on it. *)
Lemma questionsAnswered_spec fd qs :
  questionsAnswered fd qs
  = bool_decide (validateQuestions fd qs [] = []).
Proof.
  rewrite validateQuestions_spec. cbn.
  induction qs as [|q qs IH]; [done|].
  rewrite questionsAnswered_cons, filter_cons.
  destruct (decide (answer_missing fd q)); [done | exact IH].
Qed.

(** Where the two validators do agree: on every state in which the
    operator name is not a non-empty run of whitespace and the unfiltered
    questions of the current category are the filtered ones. *)
Lemma canProceed_agrees_when (env : Env) (st : State) :
  (currentStep st = 2 →
     trim (operatorName (formData st)) = [] → operatorName (formData st) = []) →
  (∀ category,
     3 ≤ currentStep st →
     categoryAt (categoriesWithQuestions env (formData st)) (currentStep st)
       = Some category →
     List.filter (λ q, categoryId q =? cat_id category) (questions env)
     = categoryQuestions env (formData st) category) →
  canProceed env st = (validateCurrentStep env st).1.
Proof.
  intros Hname Hqs. rewrite validateCurrentStep_verdict.
  unfold canProceed, missingFieldsOf.
  destruct (Z.eqb_spec (currentStep st) 2) as [Hstep|Hstep].
  - specialize (Hname Hstep).
    unfold validateIdentification, push.
    assert (truthy_str (trim (operatorName (formData st)))
            = truthy_str (operatorName (formData st))) as ->.
    { destruct (trim (operatorName (formData st))) as [|c r] eqn:Ht.
      - by rewrite Hname.
      - destruct (operatorName (formData st)); [done|done]. }
    cbv zeta. fold (selectedWorkTask env (formData st)).
    generalize label_operatorName, label_workTask, label_workStation,
      label_shift.
    intros l1 l2 l3 l4.
    set (b1 := negb (truthy_str (operatorName (formData st)))).
    set (b2 := opt_flag includeWorkTasks _ && negb _).
    set (b3 := opt_flag includeWorkStations _ && truthy_id _).
    set (b4 := opt_flag hasStations _ && negb _).
    set (b5 := opt_flag includeShifts _ && negb _).
    by destruct b1, b2, b3, b4, b5.
  - destruct (Z.leb_spec 3 (currentStep st)) as [H3|H3]; [|done].
    destruct (categoryAt _ _) as [category|] eqn:Hcat; [|done].
    rewrite (Hqs category H3 eq_refl). apply questionsAnswered_spec.
Qed.

(** C1. The two validators do not give the same verdict: on the
    identification step with the operator name of two spaces
    [validateCurrentStep] reports the operator name and returns [false]
    while [canProceed] returns [true]. *)
Theorem canProceed_accepts_blank_operator :
  canProceed env_station_demo st_blank_operator = true
  ∧ validateCurrentStep env_station_demo st_blank_operator
    = (false, [toast_missing [label_operatorName]]).
Proof. split; reflexivity. Qed.

(** The other way round: [canProceed] reads the unfiltered questions and
    rejects a step on account of a question the work-task filter hides,
    which [validateCurrentStep] accepts. *)
Lemma canProceed_rejects_hidden_question :
  canProceed env_station_demo st_hidden_question = false
  ∧ validateCurrentStep env_station_demo st_hidden_question = (true, []).
Proof. split; reflexivity. Qed.

Lemma canProceed_not_equivalent :
  ¬ ∀ env st, canProceed env st = true ↔ (validateCurrentStep env st).1 = true.
Proof.
  intros H.
  destruct (H env_station_demo st_blank_operator) as [Hto _].
  specialize (Hto eq_refl). vm_compute in Hto. discriminate Hto.
Qed.

(** ** The specification's scenarios and instances of the theorems *)

(** Scenario A: station required by the task and not selected. *)
Example scenario_A :
  missingFieldsOf env_station_demo
    {| currentStep := 2; formData := fd_station_demo (lit "Anna") None ∅ |}
  = [label_workStation].
Proof. reflexivity. Qed.

(** Scenario B: a checklist that does not include work tasks never
    asks for one, whatever [workTaskId] holds. *)
Lemma scenario_B env st :
  currentStep st = 2 →
  opt_flag includeWorkTasks (currentChecklist env (formData st)) = false →
  label_workTask ∉ missingFieldsOf env st.
Proof.
  intros Hstep Hflag. rewrite (missingFieldsOf_identification _ _ Hstep).
  destruct (elem_of_four_when
              (operator_blank (formData st)) (workTask_wanted env (formData st))
              (workStation_wanted env (formData st))
              (shift_wanted env (formData st))
              label_operatorName label_workTask label_workStation label_shift)
    as (_ & [Hwt _] & _); [by_evaluation ..|].
  intros [Hyes _]%Hwt. congruence.
Qed.

(** Scenario E: a whitespace-only operator name is reported. *)
Example scenario_E :
  missingFieldsOf env_station_demo st_blank_operator = [label_operatorName].
Proof. reflexivity. Qed.

(** P5: a required number question answered [0] is satisfied, one
    answered with the empty string is reported. *)
Example property_P5 :
  (label_question q_number ∉ missingFieldsOf env_station_demo st_unticked)
  ∧ missingFieldsOf env_station_demo st_cleared_number
    = [label_question q_number].
Proof.
  split; [|reflexivity]. apply (bool_decide_unpack _). by vm_compute.
Qed.

Lemma required_checkbox_strict_witness :
  label_question q_check ∈ missingFieldsOf env_station_demo st_unticked
  ∧ (validateCurrentStep env_station_demo st_unticked).1 = false.
Proof.
  apply (required_checkbox_strict env_station_demo st_unticked
           cat_kontroll q_check);
    [ by_evaluation | reflexivity
    | apply (bool_decide_unpack _); by vm_compute
    | reflexivity | reflexivity | reflexivity
    | right; right; reflexivity ].
Defined.

Lemma required_other_emptiness_witness :
  label_question q_number
    ∈ missingFieldsOf env_station_demo st_cleared_number
  ∧ (validateCurrentStep env_station_demo st_cleared_number).1 = false.
Proof.
  apply (required_other_emptiness env_station_demo st_cleared_number
           cat_kontroll q_number);
    [ by_evaluation | reflexivity
    | apply (bool_decide_unpack _); by vm_compute
    | reflexivity | reflexivity | by_evaluation
    | right; right; reflexivity ].
Defined.

Lemma identification_missing_witness :
  label_operatorName ∈ missingFieldsOf env_station_demo st_blank_operator.
Proof.
  apply (identification_missing env_station_demo st_blank_operator);
    [ reflexivity | repeat constructor ].
Defined.

Lemma submission_outcome_witness :
  (clickNextThenSettle env_station_demo st_last_step Rejected).1
  = st_last_step.
Proof.
  apply (proj2 (proj2 (proj2
           (submission_outcome env_station_demo st_last_step)))
           (submitData env_station_demo (formData st_last_step))).
  reflexivity.
Defined.

Lemma zero_categories_submit_witness :
  handleNext env_no_categories st_only_step
  = (st_only_step,
     [Mutate (submitData env_no_categories (formData st_only_step))]).
Proof.
  apply (zero_categories_submit env_no_categories st_only_step);
    reflexivity.
Defined.

Lemma out_of_range_step_valid_witness :
  missingFieldsOf env_station_demo st_past_end = []
  ∧ validateCurrentStep env_station_demo st_past_end = (true, [])
  ∧ canProceed env_station_demo st_past_end = true.
Proof.
  apply (out_of_range_step_valid env_station_demo st_past_end);
    by_evaluation.
Defined.

Lemma planCategories_spec_witness :
  {| cat_id := 10; cat_name := lit "Safety" |}
    ∉ planCategories (categories env_filter_demo)
        (filteredQuestions env_filter_demo fd_filter_demo).
Proof.
  apply (planCategories_spec (categories env_filter_demo)
           (filteredQuestions env_filter_demo fd_filter_demo)).
  intros q Hq. apply list_elem_of_In in Hq. cbn in Hq.
  destruct Hq as [<-|[<-|[]]]; cbn; lia.
Defined.

(** * Further properties *)

(** ** Navigation *)

Lemma state_eta (st : State) :
  {| currentStep := currentStep st; formData := formData st |} = st.
Proof. by destruct st. Qed.

Lemma handleNext_formData env st :
  formData (handleNext env st).1 = formData st.
Proof.
  rewrite handleNext_spec. destruct (negb _); [done|]. by destruct (_ <? _).
Qed.

Lemma handleNext_currentStep env st :
  currentStep (handleNext env st).1 = currentStep st
  ∨ currentStep (handleNext env st).1 = currentStep st + 1
    ∧ currentStep st < totalSteps env (formData st) + 1.
Proof.
  rewrite handleNext_spec. destruct (negb _); [by left|].
  destruct (Z.ltb_spec (currentStep st) (totalSteps env (formData st) + 1));
    [by right | by left].
Qed.

(** X1. Neither navigation handler touches the form data, and both keep
    the step counter between the identification step and the last
    planned step. *)
Theorem navigation_in_range (env : Env) (st : State) :
  inRange env st →
  (formData (handleNext env st).1 = formData st
   ∧ inRange env (handleNext env st).1)
  ∧ (formData (handlePrevious st) = formData st
     ∧ inRange env (handlePrevious st)).
Proof.
  unfold inRange. intros Hin. split.
  - split; [apply handleNext_formData|]. rewrite handleNext_formData.
    destruct (handleNext_currentStep env st) as [->|[-> ?]]; lia.
  - unfold handlePrevious.
    destruct (Z.ltb_spec 2 (currentStep st)); cbn; [|done].
    split; [done | lia].
Qed.

(** X2. The back button undoes an advancing "next" click: from any step
    at or after the identification step whose validation passes and that
    is not the last one, next then previous gives the state back. *)
Theorem previous_undoes_next (env : Env) (st : State) :
  2 ≤ currentStep st →
  (validateCurrentStep env st).1 = true →
  currentStep st < totalSteps env (formData st) + 1 →
  (handleNext env st).1 ≠ st
  ∧ handlePrevious (handleNext env st).1 = st.
Proof.
  intros H2 Hok%validateCurrentStep_ok Hlt.
  rewrite handleNext_spec, Hok. cbn [negb bool_decide decide_rel].
  rewrite bool_decide_eq_true_2 by done. cbn [negb].
  destruct (Z.ltb_spec (currentStep st) (totalSteps env (formData st) + 1));
    [|lia].
  cbn [fst]. split.
  - intros Heq. apply (f_equal currentStep) in Heq. cbn in Heq. lia.
  - unfold handlePrevious. cbn [currentStep formData].
    destruct (Z.ltb_spec 2 (currentStep st + 1)); [|lia].
    replace (currentStep st + 1 - 1) with (currentStep st) by lia.
    apply state_eta.
Qed.

(** X3. While the step counter is within the plan, the label of the
    footer button tells what a passing click does: with the submit label
    the click sends the payload and stays, with the next label it moves
    one step on and sends nothing. Past the plan the button reads "next"
    although the click sends the payload. *)
Theorem button_label_matches_click (env : Env) (st : State) :
  (validateCurrentStep env st).1 = true →
  (currentStep st ≤ totalSteps env (formData st) + 1 →
   handleNext env st
   = if showsSubmit env st
     then (st, [Mutate (submitData env (formData st))])
     else ({| currentStep := currentStep st + 1; formData := formData st |},
           []))
  ∧ (totalSteps env (formData st) + 1 < currentStep st →
     showsSubmit env st = false
     ∧ handleNext env st = (st, [Mutate (submitData env (formData st))])).
Proof.
  intros Hok%validateCurrentStep_ok.
  rewrite handleNext_spec, bool_decide_eq_true_2 by done. cbn [negb].
  unfold showsSubmit. split; intros Hle.
  - destruct (Z.eqb_spec (currentStep st) (totalSteps env (formData st) + 1)),
      (Z.ltb_spec (currentStep st) (totalSteps env (formData st) + 1));
      try done; lia.
  - destruct (Z.eqb_spec (currentStep st) (totalSteps env (formData st) + 1)),
      (Z.ltb_spec (currentStep st) (totalSteps env (formData st) + 1));
      try done; lia.
Qed.

(** X4. A "next" click sends a request only when nothing is missing on
    the current step and the step is the last one (or later); the request
    then carries the assembled payload and the state stays. With
    something missing the click changes nothing and raises one
    notification that lists every missing label. *)
Theorem next_sends_only_when_valid (env : Env) (st : State) :
  (∀ d, Mutate d ∈ (handleNext env st).2 ↔
        missingFieldsOf env st = []
        ∧ totalSteps env (formData st) + 1 ≤ currentStep st
        ∧ d = submitData env (formData st))
  ∧ (missingFieldsOf env st ≠ [] →
     handleNext env st = (st, [toast_missing (missingFieldsOf env st)])).
Proof.
  rewrite handleNext_spec. split.
  - intros d. destruct (decide (missingFieldsOf env st = [])) as [Hnil|Hne].
    + rewrite bool_decide_eq_true_2 by done. cbn [negb].
      destruct (Z.ltb_spec (currentStep st)
                  (totalSteps env (formData st) + 1)); cbn [snd].
      * split; [by intros ?%not_elem_of_nil | lia].
      * rewrite list_elem_of_singleton. split.
        -- intros [= ->]. done.
        -- by intros (_ & _ & ->).
    + rewrite bool_decide_eq_false_2 by done. cbn [negb snd].
      rewrite list_elem_of_singleton. unfold toast_missing.
      split; [done | by intros [? _]].
  - intros Hne. by rewrite bool_decide_eq_false_2.
Qed.

(** ** The two validators, one direction each *)

Lemma truthy_trim s : truthy_str (trim s) = true → truthy_str s = true.
Proof. by destruct s. Qed.

Lemma questionsAnswered_Forall fd qs :
  questionsAnswered fd qs = true ↔ Forall (λ q, ¬ answer_missing fd q) qs.
Proof.
  induction qs as [|q qs IH]; [by split; [constructor|]|].
  rewrite questionsAnswered_cons, Forall_cons.
  destruct (decide (answer_missing fd q)); [|tauto].
  split; [done | tauto].
Qed.

Lemma filter_nil_Forall {A} (P : A → Prop) `{!∀ x, Decision (P x)}
    (l : list A) :
  filter P l = [] ↔ Forall (λ x, ¬ P x) l.
Proof.
  induction l as [|x l IH]; [by split; [constructor|]|].
  rewrite filter_cons, Forall_cons. destruct (decide (P x)); [|tauto].
  split; [done | tauto].
Qed.

Lemma filter_iff_on {A} (P Q : A → Prop)
    `{!∀ x, Decision (P x), !∀ x, Decision (Q x)} (l : list A) :
  (∀ x, x ∈ l → P x ↔ Q x) → filter P l = filter Q l.
Proof.
  induction l as [|x l IH]; intros Hl; [done|].
  rewrite !filter_cons, IH by (intros y Hy; apply Hl; by constructor).
  destruct (decide (P x)) as [HP|HP], (decide (Q x)) as [HQ|HQ]; try done.
  - destruct HQ. by apply (Hl x); [constructor|].
  - destruct HP. by apply (Hl x); [constructor|].
Qed.

Lemma missing_question_step_nil env st category :
  3 ≤ currentStep st →
  categoryAt (categoriesWithQuestions env (formData st)) (currentStep st)
    = Some category →
  missingFieldsOf env st = [] ↔
  Forall (λ q, ¬ answer_missing (formData st) q)
         (categoryQuestions env (formData st) category).
Proof.
  intros Hstep Hcat.
  rewrite (missingFieldsOf_question_step _ _ _ Hstep Hcat).
  rewrite <- filter_nil_Forall. split; [apply fmap_nil_inv | by intros ->].
Qed.

Lemma elem_of_filteredQuestions env fd q :
  q ∈ filteredQuestions env fd → q ∈ questions env.
Proof.
  unfold filteredQuestions, filterQuestions. destruct (_ || _); [done|].
  by intros [? _]%elem_of_filter_callback.
Qed.

(** X5. The gate and the validator are comparable one way on each kind
    of step: on the identification step every state the validator
    accepts is accepted by [canProceed]; on a question step every state
    [canProceed] accepts is accepted by the validator. *)
Theorem validators_one_way (env : Env) (st : State) :
  (currentStep st = 2 →
   (validateCurrentStep env st).1 = true → canProceed env st = true)
  ∧ (3 ≤ currentStep st →
     canProceed env st = true → (validateCurrentStep env st).1 = true).
Proof.
  split.
  - intros Hstep. rewrite validateCurrentStep_verdict.
    unfold canProceed, missingFieldsOf.
    destruct (Z.eqb_spec (currentStep st) 2) as [_|]; [|done].
    unfold validateIdentification, push. cbv zeta.
    fold (selectedWorkTask env (formData st)).
    pose proof (truthy_trim (operatorName (formData st))) as Htrim.
    generalize label_operatorName, label_workTask, label_workStation,
      label_shift.
    intros l1 l2 l3 l4.
    destruct (truthy_str (trim (operatorName (formData st)))).
    + rewrite (Htrim eq_refl). cbn [negb].
      set (b2 := opt_flag includeWorkTasks _ && negb _).
      set (b3 := opt_flag includeWorkStations _ && truthy_id _).
      set (b4 := opt_flag hasStations _ && negb _).
      set (b5 := opt_flag includeShifts _ && negb _).
      by destruct b2, b3, b4, b5.
    + cbn [negb].
      set (b2 := opt_flag includeWorkTasks _ && negb _).
      set (b3 := opt_flag includeWorkStations _ && truthy_id _).
      set (b4 := opt_flag hasStations _ && negb _).
      set (b5 := opt_flag includeShifts _ && negb _).
      by destruct b2, b3, b4, b5.
  - intros Hstep Hcan. apply validateCurrentStep_ok.
    destruct (categoryAt (categoriesWithQuestions env (formData st))
                (currentStep st)) as [category|] eqn:Hcat.
    + apply (missing_question_step_nil _ _ _ Hstep Hcat).
      unfold canProceed in Hcan.
      destruct (Z.eqb_spec (currentStep st) 2) as [|_]; [lia|].
      destruct (Z.leb_spec 3 (currentStep st)); [|lia].
      rewrite Hcat in Hcan. apply questionsAnswered_Forall in Hcan.
      rewrite Forall_forall in Hcan. apply Forall_forall. intros q Hq.
      apply elem_of_categoryQuestions in Hq as [Hq Hc]. apply Hcan.
      apply elem_of_filter_callback. split; [|lia].
      by apply elem_of_filteredQuestions in Hq.
    + unfold missingFieldsOf.
      destruct (Z.eqb_spec (currentStep st) 2) as [|_]; [lia|].
      destruct (Z.leb_spec 3 (currentStep st)); [|lia]. by rewrite Hcat.
Qed.

(** ** A form with an empty operator name *)

Lemma blank_operator_first env st :
  currentStep st = 2 →
  trim (operatorName (formData st)) = [] →
  ∃ rest, missingFieldsOf env st = label_operatorName :: rest.
Proof.
  intros Hstep Hblank. rewrite (missingFieldsOf_identification _ _ Hstep).
  unfold when at 1. rewrite decide_True by done. by eexists.
Qed.

Lemma blank_operator_stays env st :
  currentStep st = 2 →
  trim (operatorName (formData st)) = [] →
  ∃ rest,
    handleNext env st = (st, [toast_missing (label_operatorName :: rest)]).
Proof.
  intros Hstep Hblank.
  destruct (blank_operator_first env st Hstep Hblank) as [rest Hm].
  exists rest. rewrite handleNext_spec, Hm.
  by rewrite bool_decide_eq_false_2.
Qed.

Lemma autoSelectWorkTask_operatorName env fd :
  operatorName (autoSelectWorkTask env fd) = operatorName fd.
Proof.
  unfold autoSelectWorkTask. destruct (_ && _).
  - by destruct (workTasks env).
  - by destruct (_ && _).
Qed.

(** X6. A form that was just reset (after a successful submission),
    closed, or opened cannot send anything: a "next" click leaves it as
    it is and raises the notification, whose first label is the operator
    name. So one success is never followed by a second request without
    new input. *)
Theorem fresh_form_cannot_send (env : Env) (st st0 : State) :
  st0 = (submitMutation_settle env st Resolved).1
  ∨ st0 = onModalClosed env st ∨ st0 = openedState env →
  ∃ rest,
    handleNext env st0 = (st0, [toast_missing (label_operatorName :: rest)]).
Proof.
  intros [->|[->| ->]]; apply blank_operator_stays; try done.
  cbn [openedState withFormData formData].
  by rewrite autoSelectWorkTask_operatorName.
Qed.

(** ** Work tasks: the linked list, the select box and the effect *)

Lemma elem_of_workTasks env task :
  task ∈ workTasks env ↔
  task ∈ allWorkTasks env
  ∧ ∃ cwt, cwt ∈ checklistWorkTasks env ∧ cwt_workTaskId cwt = wt_id task.
Proof.
  unfold workTasks. rewrite elem_of_filter_callback, some_callback.
  rewrite Exists_exists. split.
  - intros [? (cwt & ? & ?)]. split; [done|]. exists cwt. split; [done|lia].
  - intros [? (cwt & ? & ?)]. split; [done|]. exists cwt. split; [done|lia].
Qed.

Lemma find_callback_Some {A} (f : A → bool) (l : list A) x :
  List.find f l = Some x → x ∈ l ∧ f x = true.
Proof. intros [? ?]%find_some. split; [by apply list_elem_of_In | done]. Qed.

Lemma find_callback_None {A} (f : A → bool) (l : list A) :
  List.find f l = None ↔ ∀ x, x ∈ l → f x = false.
Proof.
  split.
  - intros Hnone x Hx%list_elem_of_In. by apply (find_none f l).
  - intros Hall. induction l as [|x l IH]; [done|]. cbn [List.find].
    rewrite (Hall x) by constructor. apply IH. intros y Hy.
    apply Hall. by constructor.
Qed.

Lemma selectedWorkTask_Some env fd task :
  selectedWorkTask env fd = Some task →
  workTaskId fd = Some (wt_id task) ∧ task ∈ workTasks env.
Proof.
  unfold selectedWorkTask. intros [Hin Hid]%find_callback_Some.
  split; [|done]. destruct (workTaskId fd) as [w|]; [|done].
  cbn in Hid. f_equal. lia.
Qed.

(** X7. The work task the validator looks up is always one linked to
    the checklist and carrying the selected identifier; and when the
    selected identifier belongs to no linked work task, the
    identification step never asks for a work station, whatever the
    checklist flags and the other work tasks say. *)
Theorem unlinked_task_needs_no_station (env : Env) (st : State) :
  (∀ task, selectedWorkTask env (formData st) = Some task →
     workTaskId (formData st) = Some (wt_id task)
     ∧ task ∈ allWorkTasks env
     ∧ ∃ cwt, cwt ∈ checklistWorkTasks env
              ∧ cwt_workTaskId cwt = wt_id task)
  ∧ (currentStep st = 2 →
     (∀ task cwt, task ∈ allWorkTasks env → cwt ∈ checklistWorkTasks env →
        cwt_workTaskId cwt = wt_id task →
        workTaskId (formData st) ≠ Some (wt_id task)) →
     label_workStation ∉ missingFieldsOf env st).
Proof.
  split.
  - intros task [Hid Hin%elem_of_workTasks]%selectedWorkTask_Some. tauto.
  - intros Hstep Hnone. rewrite (missingFieldsOf_identification _ _ Hstep).
    destruct (elem_of_four_when
                (operator_blank (formData st))
                (workTask_wanted env (formData st))
                (workStation_wanted env (formData st))
                (shift_wanted env (formData st))
                label_operatorName label_workTask label_workStation
                label_shift)
      as (_ & _ & [Hws _] & _); [by_evaluation ..|].
    intros (_ & _ & Hsel & _)%Hws.
    destruct (selectedWorkTask env (formData st)) as [task|] eqn:Hfind;
      [|done].
    apply selectedWorkTask_Some in Hfind as [Hid Hin%elem_of_workTasks].
    destruct Hin as [Hall (cwt & Hcwt & Hlink)].
    by apply (Hnone task cwt).
Qed.

Lemma onWorkTaskChange_selected env taskId prev :
  selectedWorkTask env (onWorkTaskChange env taskId prev)
  = List.find (λ task, wt_id task =? taskId) (workTasks env).
Proof. done. Qed.

(** X8. Choosing a work task stores its identifier and leaves the
    checklist, operator name, shift and responses alone; the station
    survives only when the chosen task is a linked task with stations,
    and is cleared otherwise. Right after the choice the identification
    step asks for a station only if the chosen task has stations and no
    station was selected before. *)
Theorem work_task_choice_clears_station (env : Env) (taskId : Z)
    (prev : FormData) :
  let fd := onWorkTaskChange env taskId prev in
  workTaskId fd = Some taskId
  ∧ (checklistId fd, operatorName fd, shiftId fd, responses fd)
    = (checklistId prev, operatorName prev, shiftId prev, responses prev)
  ∧ (workStationId fd = workStationId prev
     ∧ (∃ task, selectedWorkTask env fd = Some task ∧ wt_id task = taskId
                ∧ hasStations task = true)
     ∨ workStationId fd = None
       ∧ hasStations <$> selectedWorkTask env fd ≠ Some true)
  ∧ (label_workStation
       ∈ missingFieldsOf env {| currentStep := 2; formData := fd |} →
     hasStations <$> selectedWorkTask env fd = Some true
     ∧ truthy_id (workStationId prev) = false).
Proof.
  intros fd. split; [done|]. split; [done|].
  assert (workStationId fd = workStationId prev
          ∧ (∃ task, selectedWorkTask env fd = Some task ∧ wt_id task = taskId
                     ∧ hasStations task = true)
          ∨ workStationId fd = None
            ∧ hasStations <$> selectedWorkTask env fd ≠ Some true) as Hst.
  { subst fd. rewrite onWorkTaskChange_selected.
    unfold onWorkTaskChange. cbn [workStationId].
    destruct (List.find _ _) as [task|] eqn:Hfind; cbn.
    - apply find_callback_Some in Hfind as [_ Hid].
      destruct (hasStations task) eqn:Hs.
      + left. split; [done|]. exists task. repeat split; [lia | done].
      + right. split; [done|]. by intros [=].
    - right. by split. }
  split; [exact Hst|].
  rewrite (missingFieldsOf_identification env
             {| currentStep := 2; formData := fd |} eq_refl).
  destruct (elem_of_four_when
              (operator_blank fd) (workTask_wanted env fd)
              (workStation_wanted env fd) (shift_wanted env fd)
              label_operatorName label_workTask label_workStation
              label_shift)
    as (_ & _ & [Hws _] & _); [by_evaluation ..|].
  cbn [formData]. intros (_ & _ & Hsel & Hnone)%Hws. split; [done|].
  destruct Hst as [[<- _]|[_ Hno]]; [done | by destruct Hno].
Qed.

Lemma autoSelectWorkTask_cases env fd :
  (∃ task, workTasks env = [task] ∧ workTaskId fd = None
           ∧ workTaskId (autoSelectWorkTask env fd) = Some (wt_id task)
           ∧ workStationId (autoSelectWorkTask env fd) = workStationId fd)
  ∨ (workTasks env = [] ∧ workTaskId fd ≠ None
     ∧ workTaskId (autoSelectWorkTask env fd) = None
     ∧ workStationId (autoSelectWorkTask env fd) = None)
  ∨ (autoSelectWorkTask env fd = fd
     ∧ ¬ (length (workTasks env) = 1%nat ∧ workTaskId fd = None)
     ∧ ¬ (workTasks env = [] ∧ workTaskId fd ≠ None)).
Proof.
  unfold autoSelectWorkTask.
  destruct (workTasks env) as [|task [|task' rest]] eqn:Hw; cbn [length].
  - cbn. destruct (decide (workTaskId fd = None)) as [Hn|Hn].
    + rewrite bool_decide_eq_true_2 by done. cbn.
      right. right. split; [done|]. split; [by intros [? _] | by intros [_ ?]].
    + rewrite bool_decide_eq_false_2 by done. cbn. right. left. by repeat split.
  - cbn. destruct (decide (workTaskId fd = None)) as [Hn|Hn].
    + rewrite bool_decide_eq_true_2 by done. left. by exists task.
    + rewrite bool_decide_eq_false_2 by done.
      right. right. split; [done|]. split; [by intros [_ ?] | by intros [? _]].
  - cbn. right. right. split; [done|]. split; by intros [? _].
Qed.

Lemma autoSelectWorkTask_idem env fd :
  autoSelectWorkTask env (autoSelectWorkTask env fd)
  = autoSelectWorkTask env fd.
Proof.
  destruct (autoSelectWorkTask_cases env fd)
    as [(task & Hw & Hn & Hid & Hst)|[(Hw & Hn & Hid & Hst)|(Heq & _)]].
  - destruct (autoSelectWorkTask_cases env (autoSelectWorkTask env fd))
      as [(? & _ & Hn' & _)|[(Hw' & _)|(Heq & _)]]; [congruence.. | done].
  - destruct (autoSelectWorkTask_cases env (autoSelectWorkTask env fd))
      as [(? & Hw' & _)|[(_ & Hn' & _)|(Heq & _)]]; [congruence.. | done].
  - by rewrite Heq.
Qed.

(** X9. The work-task effect settles in one run: running it again
    changes nothing. It only ever touches the work task and the station:
    with exactly one linked work task and none selected it selects that
    one, with no linked work task it clears a selection together with the
    station, and in every other case it leaves the form data as they
    are. *)
Theorem auto_select_settles (env : Env) (fd : FormData) :
  autoSelectWorkTask env (autoSelectWorkTask env fd)
  = autoSelectWorkTask env fd
  ∧ (checklistId (autoSelectWorkTask env fd),
     operatorName (autoSelectWorkTask env fd),
     shiftId (autoSelectWorkTask env fd),
     responses (autoSelectWorkTask env fd))
    = (checklistId fd, operatorName fd, shiftId fd, responses fd)
  ∧ (∀ task, workTasks env = [task] → workTaskId fd = None →
       workTaskId (autoSelectWorkTask env fd) = Some (wt_id task)
       ∧ workStationId (autoSelectWorkTask env fd) = workStationId fd)
  ∧ (workTasks env = [] →
       workTaskId (autoSelectWorkTask env fd) = None
       ∧ (workTaskId fd ≠ None →
          workStationId (autoSelectWorkTask env fd) = None))
  ∧ ((2 ≤ length (workTasks env))%nat → autoSelectWorkTask env fd = fd)
  ∧ (workTaskId fd ≠ None → workTasks env ≠ [] →
       autoSelectWorkTask env fd = fd).
Proof.
  split; [|split; [|split; [|split; [|split]]]].
  - apply autoSelectWorkTask_idem.
  - unfold autoSelectWorkTask. destruct (_ && _).
    + by destruct (workTasks env).
    + by destruct (_ && _).
  - intros task Hw Hn.
    destruct (autoSelectWorkTask_cases env fd)
      as [(task' & Hw' & _ & Hid & Hst)|[(Hw' & _)|(_ & Hno & _)]].
    + split; [|done]. rewrite Hid. congruence.
    + congruence.
    + destruct Hno. by rewrite Hw.
  - intros Hw.
    destruct (autoSelectWorkTask_cases env fd)
      as [(task' & Hw' & _)|[(_ & _ & Hid & Hst)|(Heq & _ & Hno)]].
    + congruence.
    + done.
    + rewrite Heq. destruct (decide (workTaskId fd = None)) as [Hn|Hn];
        [by split | by destruct Hno].
  - intros Hlen.
    destruct (autoSelectWorkTask_cases env fd)
      as [(task' & Hw' & _)|[(Hw' & _)|(Heq & _)]]; [| |done].
    + rewrite Hw' in Hlen. cbn in Hlen. lia.
    + rewrite Hw' in Hlen. cbn in Hlen. lia.
  - intros Hn Hw.
    destruct (autoSelectWorkTask_cases env fd)
      as [(task' & _ & Hn' & _)|[(Hw' & _)|(Heq & _)]]; [done.. | done].
Qed.

(** ** What is on screen is what is validated *)

Lemma categoryAt_in_range (plan : list Category) (step : Z) :
  3 ≤ step → is_Some (categoryAt plan step) ↔ step ≤ totalStepsOf plan + 1.
Proof.
  intros H3. unfold categoryAt, totalStepsOf. rewrite lookup_lt_is_Some. lia.
Qed.

Lemma categoryAt_elem_of (plan : list Category) (step : Z) category :
  categoryAt plan step = Some category → category ∈ plan.
Proof. unfold categoryAt. apply list_elem_of_lookup_2. Qed.

Lemma renderedQuestions_question_step env st category :
  3 ≤ currentStep st →
  categoryAt (categoriesWithQuestions env (formData st)) (currentStep st)
    = Some category →
  renderedQuestions env st = categoryQuestions env (formData st) category.
Proof.
  intros Hstep Hcat. unfold renderedQuestions.
  destruct (Z.eqb_spec (currentStep st) 2) as [|_]; [lia|].
  destruct (Z.leb_spec 3 (currentStep st)); [|lia]. by rewrite Hcat.
Qed.

Lemma renderedQuestions_nil env st :
  currentStep st ≤ 2 ∨ totalSteps env (formData st) + 1 < currentStep st →
  renderedQuestions env st = [].
Proof.
  intros Hout. unfold renderedQuestions.
  destruct (Z.eqb_spec (currentStep st) 2) as [|_]; [done|].
  destruct (Z.leb_spec 3 (currentStep st)) as [H3|]; [|done].
  rewrite categoryAt_out_of_range; [done | done |].
  unfold totalSteps, totalStepsOf in Hout. lia.
Qed.

(** X10. A question step within the plan always shows at least one
    question, and every question shown belongs to the step's category;
    outside the plan, and on the identification step, no question is
    shown. On every step other than the identification step the
    validator reports exactly the shown questions whose answer is
    missing, in the order they are shown. *)
Theorem validated_is_rendered (env : Env) (st : State) :
  (renderedQuestions env st ≠ [] ↔
   3 ≤ currentStep st ≤ totalSteps env (formData st) + 1)
  ∧ (∀ q, q ∈ renderedQuestions env st →
       q ∈ questions env
       ∧ ∃ category,
           categoryAt (categoriesWithQuestions env (formData st))
                      (currentStep st) = Some category
           ∧ categoryId q = cat_id category)
  ∧ (currentStep st ≠ 2 →
     missingFieldsOf env st
     = label_question <$>
         filter (answer_missing (formData st)) (renderedQuestions env st)).
Proof.
  destruct (decide (3 ≤ currentStep st)) as [H3|H3]; cycle 1.
  { rewrite renderedQuestions_nil by lia.
    split; [split; [done | lia]|].
    split; [by intros q ?%not_elem_of_nil|].
    intros Hne. unfold missingFieldsOf.
    destruct (Z.eqb_spec (currentStep st) 2) as [|_]; [done|].
    by destruct (Z.leb_spec 3 (currentStep st)); [lia|]. }
  destruct (categoryAt (categoriesWithQuestions env (formData st))
              (currentStep st)) as [category|] eqn:Hcat.
  - rewrite (renderedQuestions_question_step _ _ _ H3 Hcat).
    split; [|split].
    + assert (is_Some (categoryAt (categoriesWithQuestions env (formData st))
                         (currentStep st))) as Hin by (by rewrite Hcat).
      apply categoryAt_in_range in Hin; [|done].
      split; [intros _; unfold totalSteps; lia|].
      intros _ Hnil.
      apply categoryAt_elem_of, elem_of_planCategories in Hcat
        as [_ (q & Hq & Hc)].
      assert (q ∈ categoryQuestions env (formData st) category) as Hin'
        by by apply elem_of_categoryQuestions.
      rewrite Hnil in Hin'. by apply not_elem_of_nil in Hin'.
    + intros q [Hq Hc]%elem_of_categoryQuestions.
      split; [by apply elem_of_filteredQuestions in Hq | by exists category].
    + intros _. by apply missingFieldsOf_question_step.
  - assert (¬ is_Some (categoryAt (categoriesWithQuestions env (formData st))
                         (currentStep st))) as Hout
      by (rewrite Hcat; by intros [??]).
    rewrite categoryAt_in_range in Hout by done.
    rewrite renderedQuestions_nil by (right; unfold totalSteps; lia).
    split; [split; [done | unfold totalSteps; lia]|].
    split; [by intros q ?%not_elem_of_nil|].
    intros _. unfold missingFieldsOf.
    destruct (Z.eqb_spec (currentStep st) 2) as [|_]; [lia|].
    destruct (Z.leb_spec 3 (currentStep st)); [|lia]. by rewrite Hcat.
Qed.

(** ** Storing an answer *)

Lemma response_at_onResponseChange id value fd id' :
  response_at (responses (onResponseChange id value fd)) id'
  = if decide (id' = id) then value else response_at (responses fd) id'.
Proof.
  unfold response_at, onResponseChange. cbn [responses].
  destruct (decide (id' = id)) as [->|Hne].
  - by rewrite lookup_insert_eq.
  - by rewrite lookup_insert_ne.
Qed.

Lemma answer_missing_other id value fd q :
  q_id q ≠ id →
  answer_missing (onResponseChange id value fd) q ↔ answer_missing fd q.
Proof.
  intros Hne. unfold answer_missing. rewrite response_at_onResponseChange.
  by destruct (decide (q_id q = id)).
Qed.

Lemma answer_missing_stored value fd q :
  answer_missing (onResponseChange (q_id q) value fd) q ↔
  isRequired q = true
  ∧ if decide (q_type q = lit "check") then value ≠ VBool true
    else value = VUndefined ∨ value = VNull ∨ value = VStr [].
Proof.
  unfold answer_missing. rewrite response_at_onResponseChange.
  by destruct (decide (q_id q = q_id q)).
Qed.

(** X11. Storing an answer changes neither the step, nor the filtered
    questions, nor the plan. It changes the verdict of no shown question
    with another identifier; the answered question is missing afterwards
    exactly when it is required and the stored value fails its test; and
    when the value passes, the list of missing labels becomes the old
    one without the entry of that question. *)
Theorem answer_updates_one_entry (env : Env) (st : State)
    (category : Category) (question : Question) (value : JsValue) :
  3 ≤ currentStep st →
  categoryAt (categoriesWithQuestions env (formData st)) (currentStep st)
    = Some category →
  question ∈ renderedQuestions env st →
  (∀ q, q ∈ renderedQuestions env st → q_id q = q_id question → q = question) →
  let st' :=
    withFormData st (onResponseChange (q_id question) value (formData st)) in
  (currentStep st' = currentStep st
   ∧ filteredQuestions env (formData st') = filteredQuestions env (formData st)
   ∧ categoriesWithQuestions env (formData st')
     = categoriesWithQuestions env (formData st)
   ∧ renderedQuestions env st' = renderedQuestions env st)
  ∧ (∀ q, q ∈ renderedQuestions env st → q ≠ question →
       answer_missing (formData st') q ↔ answer_missing (formData st) q)
  ∧ (answer_missing (formData st') question ↔
     isRequired question = true
     ∧ if decide (q_type question = lit "check") then value ≠ VBool true
       else value = VUndefined ∨ value = VNull ∨ value = VStr [])
  ∧ (¬ answer_missing (formData st') question →
     missingFieldsOf env st'
     = label_question <$>
         filter (λ q, q ≠ question ∧ answer_missing (formData st) q)
                (renderedQuestions env st)).
Proof.
  intros H3 Hcat Hin Huniq st'.
  assert (renderedQuestions env st' = renderedQuestions env st) as Hsame
    by done.
  split; [done|].
  assert (∀ q, q ∈ renderedQuestions env st → q ≠ question →
            answer_missing (formData st') q ↔ answer_missing (formData st) q)
    as Hother.
  { intros q Hq Hne. apply answer_missing_other. intros Hid.
    by apply Hne, Huniq. }
  split; [exact Hother|]. split; [apply answer_missing_stored|].
  intros Hok.
  rewrite (missingFieldsOf_question_step env st' category H3 Hcat).
  rewrite <- (renderedQuestions_question_step env st' category H3 Hcat), Hsame.
  f_equal. apply filter_iff_on. intros q Hq.
  destruct (decide (q = question)) as [->|Hne].
  - split; [done | by intros [? _]].
  - rewrite (Hother q Hq Hne). tauto.
Qed.

Lemma widgetStores_check value :
  widgetStores (lit "check") value = true ↔ ∃ b, value = VBool b.
Proof.
  destruct value as [| |b|n|s]; cbn; split; try done; try by intros [? ?].
  by exists b.
Qed.

(** X12. Whatever value a widget stores for its question, the question
    can only be left missing in two ways: a required checkbox stored as
    [false], or a required question of a text-like type stored as the
    empty string. In particular a switch turned off and every star or
    mood rating satisfy a required question, and a checkbox reporting
    "indeterminate" is stored as [false] and does not. *)
Theorem widget_values_accepted (fd : FormData) (question : Question)
    (value : JsValue) :
  widgetStores (q_type question) value = true →
  (answer_missing (onResponseChange (q_id question) value fd) question ↔
   isRequired question = true
   ∧ (q_type question = lit "check" ∧ value = VBool false
      ∨ q_type question ≠ lit "check" ∧ value = VStr []))
  ∧ (∀ checked,
       q_type question = lit "check" →
       answer_missing (onCheckedChange (q_id question) checked fd) question ↔
       isRequired question = true ∧ checked ≠ Checked true).
Proof.
  intros Hw. split.
  - rewrite answer_missing_stored.
    destruct (decide (q_type question = lit "check")) as [Hty|Hty].
    + rewrite Hty in Hw. apply widgetStores_check in Hw as [b ->].
      set (ck := lit "check") in *. destruct b; intuition congruence.
    + assert (value ≠ VUndefined ∧ value ≠ VNull) as [Hu Hn]
        by (by destruct value).
      clear Hw. set (ck := lit "check") in *. intuition congruence.
  - intros checked Hty. unfold onCheckedChange.
    rewrite answer_missing_stored, decide_True by done.
    destruct checked as [[|]|]; cbn [is_checked]; intuition congruence.
Qed.

(** ** A complete form goes through *)

Lemma totalSteps_pos env fd : 1 ≤ totalSteps env fd.
Proof. unfold totalSteps, totalStepsOf. lia. Qed.

Lemma stepValid_identification env fd :
  stepValid env fd 2 ↔ validateIdentification env fd [] = [].
Proof. done. Qed.

Lemma stepValid_question_step env fd j category :
  3 ≤ j →
  categoryAt (categoriesWithQuestions env fd) j = Some category →
  stepValid env fd j ↔
  Forall (λ q, ¬ answer_missing fd q) (categoryQuestions env fd category).
Proof.
  intros H3 Hcat. unfold stepValid.
  by apply (missing_question_step_nil env
              {| currentStep := j; formData := fd |} category).
Qed.

Lemma stepValid_outside env fd j :
  j < 2 ∨ (3 ≤ j ∧ categoryAt (categoriesWithQuestions env fd) j = None) →
  stepValid env fd j.
Proof.
  intros Hout. unfold stepValid, missingFieldsOf. cbn [currentStep formData].
  destruct (Z.eqb_spec j 2) as [|_]; [lia|].
  destruct (Z.leb_spec 3 j); [|done].
  destruct Hout as [|[_ ->]]; [lia | done].
Qed.

Lemma complete_stepValid env fd j : complete env fd → stepValid env fd j.
Proof.
  intros [Hid Hqs].
  destruct (decide (j = 2)) as [->|Hne]; [done|].
  destruct (decide (3 ≤ j)) as [H3|H3];
    [|apply stepValid_outside; lia].
  destruct (categoryAt (categoriesWithQuestions env fd) j)
    as [category|] eqn:Hcat; [|apply stepValid_outside; by right].
  apply (stepValid_question_step _ _ _ _ H3 Hcat), Forall_forall.
  intros q [Hq Hc]%elem_of_categoryQuestions. apply Hqs; [done|].
  exists category. split; [|done].
  by apply categoryAt_elem_of, elem_of_planCategories in Hcat as [? _].
Qed.

Lemma handleNext_valid env st :
  stepValid env (formData st) (currentStep st) →
  handleNext env st
  = if currentStep st <? totalSteps env (formData st) + 1
    then ({| currentStep := currentStep st + 1; formData := formData st |}, [])
    else (st, [Mutate (submitData env (formData st))]).
Proof.
  unfold stepValid. rewrite state_eta. intros Hok.
  by rewrite handleNext_spec, bool_decide_eq_true_2.
Qed.

Lemma clickNextTimes_advance env fd (k : nat) :
  complete env fd →
  (Z.of_nat k ≤ Z.of_nat (length (categoriesWithQuestions env fd))) →
  clickNextTimes env {| currentStep := 2; formData := fd |} k
  = ({| currentStep := 2 + Z.of_nat k; formData := fd |}, []).
Proof.
  intros Hc. assert (∀ s,
    Z.of_nat k ≤ totalSteps env fd + 1 - s →
    clickNextTimes env {| currentStep := s; formData := fd |} k
    = ({| currentStep := s + Z.of_nat k; formData := fd |}, [])) as Hgen.
  { induction k as [|k IH]; intros s Hle.
    - cbn. by rewrite Z.add_0_r.
    - cbn [clickNextTimes]. rewrite handleNext_valid
        by (by apply complete_stepValid).
      cbn [currentStep formData].
      destruct (Z.ltb_spec s (totalSteps env fd + 1)); [|lia].
      rewrite IH by lia. f_equal. f_equal. lia. }
  intros Hle. apply Hgen. unfold totalSteps, totalStepsOf. lia.
Qed.

(** X13. When the form is complete (nothing to report on the
    identification step and every shown question of a fetched category
    answered), clicking "next" from the identification step walks through
    every planned step without a notification, and the click on the last
    step, the [totalSteps]-th one, sends the payload of these form
    data. *)
Theorem complete_form_submits (env : Env) (fd : FormData) :
  complete env fd →
  let start := {| currentStep := 2; formData := fd |} in
  let total := length (categoriesWithQuestions env fd) in
  (∀ k : nat, (k ≤ total)%nat →
     clickNextTimes env start k
     = ({| currentStep := 2 + Z.of_nat k; formData := fd |}, []))
  ∧ clickNextTimes env start (S total)
    = ({| currentStep := totalSteps env fd + 1; formData := fd |},
       [Mutate (submitData env fd)]).
Proof.
  intros Hc start total. split.
  - intros k Hk. apply clickNextTimes_advance; [done | lia].
  - assert (∀ s n effs,
      clickNextTimes env s n = ({| currentStep := totalSteps env fd + 1;
                                   formData := fd |}, effs) →
      clickNextTimes env s (S n)
      = ({| currentStep := totalSteps env fd + 1; formData := fd |},
         effs ++ [Mutate (submitData env fd)])) as Hlast.
    { intros s n. revert s. induction n as [|n IH]; intros s effs.
      - cbn [clickNextTimes]. intros [= -> <-].
        rewrite handleNext_valid by (by apply complete_stepValid).
        cbn [currentStep formData].
        by destruct (Z.ltb_spec (totalSteps env fd + 1)
                       (totalSteps env fd + 1)); [lia|].
      - intros Hn. cbn [clickNextTimes] in Hn |- *.
        destruct (handleNext env s) as [s1 e1].
        destruct (clickNextTimes env s1 n) as [s2 e2] eqn:Hrec.
        injection Hn as -> <-.
        specialize (IH s1 e2 Hrec).
        cbn [clickNextTimes] in IH. rewrite IH. by rewrite app_assoc. }
    rewrite (Hlast start total []); [done|].
    subst start total. rewrite clickNextTimes_advance by done.
    f_equal. f_equal. unfold totalSteps, totalStepsOf. lia.
Qed.

(** ** Every request an open form sends is complete *)

Lemma settled_iff env fd :
  settled env fd ↔
  ¬ (length (workTasks env) = 1%nat ∧ workTaskId fd = None)
  ∧ ¬ (workTasks env = [] ∧ workTaskId fd ≠ None).
Proof.
  unfold settled. split.
  - intros Heq.
    destruct (autoSelectWorkTask_cases env fd)
      as [(task & Hw & Hn & Hid & _)|[(Hw & Hn & Hid & _)|(_ & H1 & H2)]];
      [| |done]; rewrite Heq in Hid; congruence.
  - intros [H1 H2].
    destruct (autoSelectWorkTask_cases env fd)
      as [(task & Hw & Hn & _)|[(Hw & Hn & _)|(Heq & _)]]; [| |done].
    + destruct H1. by rewrite Hw.
    + by destruct H2.
Qed.

Lemma settled_same_task env fd fd' :
  workTaskId fd' = workTaskId fd → settled env fd → settled env fd'.
Proof. rewrite !settled_iff. by intros ->. Qed.

Lemma withFormData_same st : withFormData st (formData st) = st.
Proof. by destruct st. Qed.

Lemma NoDup_fmap_eq {A B} (f : A → B) (l : list A) x y :
  NoDup (f <$> l) → x ∈ l → y ∈ l → f x = f y → x = y.
Proof.
  induction l as [|z l IH]; [by intros _ ?%not_elem_of_nil|].
  rewrite fmap_cons, NoDup_cons, !elem_of_cons.
  intros [Hz Hnd] [->|Hx] [->|Hy] Hf; [done | | |by apply IH].
  - destruct Hz. rewrite Hf. by apply list_elem_of_fmap_2.
  - destruct Hz. rewrite <- Hf. by apply list_elem_of_fmap_2.
Qed.

Lemma plan_index_unique env fd i k c c' :
  NoDup (cat_id <$> categories env) →
  categoriesWithQuestions env fd !! i = Some c →
  categoriesWithQuestions env fd !! k = Some c' →
  cat_id c = cat_id c' → i = k.
Proof.
  intros Hnd Hi Hk Hid.
  assert (NoDup (cat_id <$> categoriesWithQuestions env fd)) as Hplan.
  { eapply sublist_NoDup; [exact Hnd|].
    apply fmap_sublist, filter_callback_sublist. }
  eapply (NoDup_lookup _ i k (cat_id c) Hplan).
  - by rewrite list_lookup_fmap, Hi.
  - by rewrite list_lookup_fmap, Hk, Hid.
Qed.

(** An answer given on one step leaves every other step as valid as it
    was, when identifiers are unique. *)
Lemma stepValid_answer_other env st question value j :
  NoDup (q_id <$> questions env) →
  NoDup (cat_id <$> categories env) →
  question ∈ renderedQuestions env st →
  j ≠ currentStep st →
  stepValid env (formData st) j →
  stepValid env (onResponseChange (q_id question) value (formData st)) j.
Proof.
  intros Hq Hc Hin Hj Hvalid.
  set (fd' := onResponseChange (q_id question) value (formData st)).
  destruct (decide (j = 2)) as [->|Hne2]; [done|].
  destruct (decide (3 ≤ j)) as [H3|H3]; [|apply stepValid_outside; lia].
  destruct (categoryAt (categoriesWithQuestions env (formData st)) j)
    as [category|] eqn:Hcat; [|apply stepValid_outside; by right].
  apply (stepValid_question_step env fd' j category H3 Hcat).
  apply (stepValid_question_step env (formData st) j category H3 Hcat)
    in Hvalid.
  rewrite Forall_forall in Hvalid. apply Forall_forall.
  intros q' Hq'. change (categoryQuestions env fd' category)
    with (categoryQuestions env (formData st) category) in Hq'.
  specialize (Hvalid q' Hq'). unfold fd'.
  rewrite answer_missing_other; [done|]. intros Hid.
  apply elem_of_categoryQuestions in Hq' as [Hq'in Hq'c].
  assert (renderedQuestions env st ≠ []) as Hne
    by (intros Hnil; rewrite Hnil in Hin; by apply not_elem_of_nil in Hin).
  unfold renderedQuestions in Hin.
  destruct (Z.eqb_spec (currentStep st) 2) as [|_];
    [by apply not_elem_of_nil in Hin|].
  destruct (Z.leb_spec 3 (currentStep st)) as [H3s|];
    [|by apply not_elem_of_nil in Hin].
  destruct (categoryAt (categoriesWithQuestions env (formData st))
              (currentStep st)) as [cat_s|] eqn:Hcat_s;
    [|by apply not_elem_of_nil in Hin].
  apply elem_of_filter_callback in Hin as [Hin Hcs].
  assert (q' = question) as ->.
  { apply (NoDup_fmap_eq q_id (questions env)); try done;
      by eapply elem_of_filteredQuestions. }
  assert (Z.to_nat (j - 3) = Z.to_nat (currentStep st - 3)) as Hidx.
  { apply (plan_index_unique env (formData st) _ _ category cat_s);
      [done | exact Hcat | exact Hcat_s | lia]. }
  lia.
Qed.

Lemma wizardInv_identification env st fd' :
  currentStep st = 2 →
  wizardInv env (withFormData st (autoSelectWorkTask env fd')).
Proof.
  intros Hstep. unfold wizardInv, inRange, settled.
  cbn [withFormData currentStep formData]. rewrite Hstep.
  split; [|split].
  - pose proof (totalSteps_pos env (autoSelectWorkTask env fd')). lia.
  - apply autoSelectWorkTask_idem.
  - intros j ?. lia.
Qed.

Lemma wizardInv_handleNext env st :
  wizardInv env st → wizardInv env (handleNext env st).1.
Proof.
  intros (Hin & Hset & Hval). unfold wizardInv, inRange in *.
  rewrite handleNext_formData.
  destruct (handleNext_currentStep env st) as [Heq|[Heq Hlt]];
    rewrite Heq.
  - by repeat split; [lia..| |].
  - split; [lia|]. split; [done|]. intros j Hj.
    destruct (decide (j = currentStep st)) as [->|Hne]; [|apply Hval; lia].
    unfold stepValid. rewrite state_eta.
    rewrite handleNext_spec in Heq.
    destruct (decide (missingFieldsOf env st = [])) as [Hnil|Hmiss];
      [done|].
    rewrite bool_decide_eq_false_2 in Heq by done. cbn in Heq. lia.
Qed.

Lemma wizardInv_handlePrevious env st :
  wizardInv env st → wizardInv env (handlePrevious st).
Proof.
  intros (Hin & Hset & Hval). unfold wizardInv, inRange, handlePrevious in *.
  destruct (Z.ltb_spec 2 (currentStep st)); [|done].
  cbn [currentStep formData]. split; [lia|]. split; [done|].
  intros j Hj. apply Hval. lia.
Qed.

Lemma offered_Answer env ch st question value :
  offered env ch st (Answer question value) = true →
  question ∈ renderedQuestions env st.
Proof.
  cbn [offered]. intros [Hin _]%andb_true_iff.
  by apply bool_decide_eq_true in Hin.
Qed.

Lemma offered_identification env ch st ev :
  offered env ch st ev = true →
  match ev with
  | TypeOperatorName _ | ChooseWorkTask _ | ChooseWorkStation _
  | ChooseShift _ => currentStep st = 2
  | _ => True
  end.
Proof.
  destruct ev; cbn [offered]; try done;
    rewrite ?andb_true_iff, Z.eqb_eq; tauto.
Qed.

(** The event loop keeps the invariant. *)
Lemma dispatch_inv env ch st ev :
  NoDup (q_id <$> questions env) →
  NoDup (cat_id <$> categories env) →
  wizardInv env st → wizardInv env (dispatch env ch st ev).1.
Proof.
  intros Hq Hc Hinv. unfold dispatch.
  destruct (offered env ch st ev) eqn:Hoff; [|done].
  pose proof (offered_identification _ _ _ _ Hoff) as Hid.
  destruct ev as [v|task|station|shift|question value| | |outcome|];
    cbn [handle fst].
  - by apply wizardInv_identification.
  - by apply wizardInv_identification.
  - by apply wizardInv_identification.
  - by apply wizardInv_identification.
  - (* Answer *)
    apply offered_Answer in Hoff.
    destruct Hinv as (Hin & Hset & Hval).
    cbn [withFormData formData currentStep].
    assert (settled env (onResponseChange (q_id question) value (formData st)))
      as Hset' by (by apply (settled_same_task env (formData st))).
    rewrite Hset'. split; [done|]. split; [done|].
    intros j Hj. cbn [withFormData currentStep formData] in Hj |- *.
    apply stepValid_answer_other; [done..|lia|by apply Hval].
  - (* ClickNext *)
    destruct (handleNext env st) as [st1 e1] eqn:Hn. cbn [fst].
    pose proof (wizardInv_handleNext env st Hinv) as Hinv1.
    rewrite Hn in Hinv1. cbn [fst] in Hinv1.
    destruct Hinv1 as (? & Hset1 & ?). rewrite Hset1, withFormData_same.
    by split; [|split].
  - (* ClickPrevious *)
    pose proof (wizardInv_handlePrevious env st Hinv) as Hinv1.
    destruct Hinv1 as (? & Hset1 & ?). rewrite Hset1, withFormData_same.
    by split; [|split].
  - (* MutationSettled *)
    destruct outcome; cbn [submitMutation_settle onSuccess onError fst].
    + by apply wizardInv_identification.
    + destruct Hinv as (? & Hset & ?). rewrite Hset, withFormData_same.
      by split; [|split].
  - (* ModalClosed *)
    by apply wizardInv_identification.
Qed.

Lemma wizardInv_complete env st :
  wizardInv env st →
  missingFieldsOf env st = [] →
  totalSteps env (formData st) + 1 ≤ currentStep st →
  complete env (formData st).
Proof.
  intros (Hin & _ & Hval) Hnil Hlast. unfold inRange in Hin.
  assert (∀ j, 2 ≤ j ≤ totalSteps env (formData st) + 1 →
            stepValid env (formData st) j) as Hall.
  { intros j Hj. destruct (decide (j = currentStep st)) as [->|Hne].
    - unfold stepValid. by rewrite state_eta.
    - apply Hval. lia. }
  split.
  - apply (proj1 (stepValid_identification env (formData st))), Hall.
    pose proof (totalSteps_pos env (formData st)). lia.
  - intros q Hq (c & Hc & Hcq).
    assert (c ∈ categoriesWithQuestions env (formData st)) as Hplan.
    { apply elem_of_planCategories. split; [done|]. by exists q. }
    apply list_elem_of_lookup in Hplan as [i Hi].
    assert (categoryAt (categoriesWithQuestions env (formData st))
              (Z.of_nat i + 3) = Some c) as Hcat.
    { unfold categoryAt. by replace (Z.to_nat (Z.of_nat i + 3 - 3)) with i
        by lia. }
    assert (stepValid env (formData st) (Z.of_nat i + 3)) as Hv.
    { apply Hall. apply lookup_lt_Some in Hi.
      unfold totalSteps, totalStepsOf. lia. }
    apply (stepValid_question_step _ _ _ c) in Hv; [|lia|done].
    rewrite Forall_forall in Hv. apply Hv.
    by apply elem_of_categoryQuestions.
Qed.

Lemma dispatch_sends env ch st ev d :
  wizardInv env st →
  Mutate d ∈ (dispatch env ch st ev).2 →
  d = submitData env (formData st) ∧ complete env (formData st).
Proof.
  intros Hinv. unfold dispatch.
  destruct (offered env ch st ev); [|by intros ?%not_elem_of_nil].
  destruct ev as [v|task|station|shift|question value| | |outcome|];
    cbn [handle snd]; try by intros ?%not_elem_of_nil.
  - destruct (handleNext env st) as [st1 e1] eqn:Hn. cbn [snd].
    assert (e1 = (handleNext env st).2) as -> by by rewrite Hn.
    rewrite handleNext_spec.
    destruct (decide (missingFieldsOf env st = [])) as [Hnil|Hmiss].
    + rewrite bool_decide_eq_true_2 by done. cbn [negb].
      destruct (Z.ltb_spec (currentStep st)
                  (totalSteps env (formData st) + 1)); cbn [snd].
      * by intros ?%not_elem_of_nil.
      * intros [= ->]%list_elem_of_singleton. split; [done|].
        by apply wizardInv_complete.
    + rewrite bool_decide_eq_false_2 by done. cbn [negb snd].
      unfold toast_missing. by intros ?%list_elem_of_singleton.
  - destruct outcome; cbn; unfold toast_saved, toast_failed;
      rewrite ?elem_of_cons; intros Hin;
      repeat (destruct Hin as [Hin|Hin]; [done|]);
      by apply not_elem_of_nil in Hin.
Qed.

Lemma wizardInv_opened env : wizardInv env (openedState env).
Proof. by apply wizardInv_identification. Qed.

Lemma run_inv env ch st evs :
  NoDup (q_id <$> questions env) →
  NoDup (cat_id <$> categories env) →
  wizardInv env st →
  wizardInv env (run env ch st evs).1
  ∧ ∀ d, Mutate d ∈ (run env ch st evs).2 →
         ∃ fd, d = submitData env fd ∧ complete env fd.
Proof.
  intros Hq Hc. revert st. induction evs as [|ev evs IH]; intros st Hinv.
  - split; [done|]. by intros d ?%not_elem_of_nil.
  - cbn [run].
    pose proof (dispatch_inv env ch st ev Hq Hc Hinv) as Hinv1.
    pose proof (dispatch_sends env ch st ev) as Hsend.
    destruct (dispatch env ch st ev) as [st1 e1]. cbn [fst snd] in *.
    destruct (IH st1 Hinv1) as [Hinv2 Hsend2].
    destruct (run env ch st1 evs) as [st2 e2]. cbn [fst snd] in *.
    split; [done|]. intros d [Hd|Hd]%elem_of_app.
    + exists (formData st). by apply Hsend.
    + by apply Hsend2.
Qed.

Lemma complete_identification env fd :
  complete env fd →
  trim (operatorName fd) ≠ []
  ∧ (opt_flag includeWorkTasks (currentChecklist env fd) = true →
     truthy_id (workTaskId fd) = true)
  ∧ (opt_flag includeShifts (currentChecklist env fd) = true →
     truthy_id (shiftId fd) = true).
Proof.
  intros [Hid _]. rewrite validateIdentification_spec in Hid.
  cbn [app] in Hid.
  apply app_eq_nil in Hid as [H1 [H2 [_ H4]%app_eq_nil]%app_eq_nil].
  unfold when in H1, H2, H4.
  destruct (decide (operator_blank fd)) as [|Hop]; [done|].
  destruct (decide (workTask_wanted env fd)) as [|Hwt]; [done|].
  destruct (decide (shift_wanted env fd)) as [|Hsh]; [done|].
  split; [done|]. unfold workTask_wanted in Hwt. unfold shift_wanted in Hsh.
  split; intros Hflag.
  - destruct (truthy_id (workTaskId fd)); [done|]. by destruct Hwt.
  - destruct (truthy_id (shiftId fd)); [done|]. by destruct Hsh.
Qed.

(** X14. With unique question and category identifiers, whatever the
    user does to a freshly opened form (typing, choosing, answering,
    going back and forth, closing, failed and successful requests),
    every payload the form sends is the payload of form data that are
    complete: nothing is missing on the identification step and every
    shown question of a fetched category has its answer. In particular
    the operator name sent is never blank, and a work task and a shift
    are set whenever the checklist includes them. *)
Theorem sent_payloads_are_complete (env : Env) (ch : Choices)
    (evs : list Event) (d : gmap string Field) :
  NoDup (q_id <$> questions env) →
  NoDup (cat_id <$> categories env) →
  Mutate d ∈ (run env ch (openedState env) evs).2 →
  ∃ fd, d = submitData env fd
        ∧ complete env fd
        ∧ trim (operatorName fd) ≠ []
        ∧ (opt_flag includeWorkTasks (currentChecklist env fd) = true →
           truthy_id (workTaskId fd) = true)
        ∧ (opt_flag includeShifts (currentChecklist env fd) = true →
           truthy_id (shiftId fd) = true).
Proof.
  intros Hq Hc Hd.
  destruct (run_inv env ch (openedState env) evs Hq Hc (wizardInv_opened env))
    as [_ Hsend].
  destruct (Hsend d Hd) as (fd & -> & Hcomplete).
  exists fd. split; [done|]. split; [done|].
  by apply complete_identification.
Qed.

Lemma dispatch_range env ch st ev :
  inRange env st ∧ settled env (formData st) →
  inRange env (dispatch env ch st ev).1
  ∧ settled env (formData (dispatch env ch st ev).1).
Proof.
  intros [Hin Hset]. unfold dispatch.
  destruct (offered env ch st ev) eqn:Hoff; [|done].
  pose proof (offered_identification _ _ _ _ Hoff) as Hid.
  assert (∀ st0 fd', currentStep st0 = 2 →
            inRange env (withFormData st0 (autoSelectWorkTask env fd'))
            ∧ settled env
                (formData (withFormData st0 (autoSelectWorkTask env fd'))))
    as Hident.
  { intros st0 fd' Hstep.
    by destruct (wizardInv_identification env st0 fd' Hstep) as (? & ? & _). }
  destruct ev as [v|task|station|shift|question value| | |outcome|];
    cbn [handle fst].
  - by apply Hident.
  - by apply Hident.
  - by apply Hident.
  - by apply Hident.
  - assert (settled env (onResponseChange (q_id question) value (formData st)))
      as Hset' by (by apply (settled_same_task env (formData st))).
    cbn [withFormData formData currentStep]. by rewrite Hset'.
  - destruct (handleNext env st) as [st1 e1] eqn:Hn. cbn [fst].
    assert (st1 = (handleNext env st).1) as -> by by rewrite Hn.
    assert (settled env (formData (handleNext env st).1)) as Hset1
      by by rewrite handleNext_formData.
    rewrite Hset1, withFormData_same. split; [|done].
    unfold inRange in *. rewrite handleNext_formData.
    destruct (handleNext_currentStep env st) as [->|[-> ?]]; lia.
  - assert (settled env (formData (handlePrevious st))) as Hset1.
    { unfold handlePrevious. by destruct (_ <? _). }
    rewrite Hset1, withFormData_same. split; [|done].
    unfold inRange, handlePrevious in *.
    destruct (Z.ltb_spec 2 (currentStep st)); cbn; [lia | done].
  - destruct outcome; cbn [submitMutation_settle onSuccess onError fst].
    + by apply Hident.
    + by rewrite Hset, withFormData_same.
  - by apply Hident.
Qed.

(** X15. Whatever the user does to a freshly opened form, the step
    counter stays within the plan: the form shows the identification
    step or a planned category step with at least one question, never a
    step past the end. *)
Theorem reachable_steps_in_plan (env : Env) (ch : Choices)
    (evs : list Event) :
  let st := (run env ch (openedState env) evs).1 in
  inRange env st
  ∧ (currentStep st = 2 ∨ renderedQuestions env st ≠ []).
Proof.
  assert (∀ st0, inRange env st0 ∧ settled env (formData st0) →
            inRange env (run env ch st0 evs).1
            ∧ settled env (formData (run env ch st0 evs).1)) as Hrun.
  { induction evs as [|ev evs IH]; intros st0 Hinv; [done|].
    cbn [run]. pose proof (dispatch_range env ch st0 ev Hinv) as Hinv1.
    destruct (dispatch env ch st0 ev) as [st1 e1]. cbn [fst] in Hinv1.
    specialize (IH st1 Hinv1).
    by destruct (run env ch st1 evs) as [st2 e2]. }
  intros st.
  assert (inRange env st) as Hin.
  { apply Hrun. by destruct (wizardInv_opened env) as (? & ? & _). }
  split; [done|].
  destruct (decide (currentStep st = 2)) as [|Hne]; [by left|right].
  unfold inRange in Hin.
  assert (renderedQuestions env st ≠ [] ↔
          3 ≤ currentStep st ≤ totalSteps env (formData st) + 1) as Hiff.
  { destruct (decide (3 ≤ currentStep st)) as [H3|]; [|lia].
    assert (is_Some (categoryAt (categoriesWithQuestions env (formData st))
                       (currentStep st))) as [category Hcat]
      by (apply categoryAt_in_range; [done | unfold totalSteps in Hin; lia]).
    rewrite (renderedQuestions_question_step _ _ _ H3 Hcat).
    split; [lia|]. intros _ Hnil.
    apply categoryAt_elem_of, elem_of_planCategories in Hcat
      as [_ (q & Hq & Hc)].
    assert (q ∈ categoryQuestions env (formData st) category) as Hin'
      by by apply elem_of_categoryQuestions.
    rewrite Hnil in Hin'. by apply not_elem_of_nil in Hin'. }
  apply Hiff. lia.
Qed.

(** ** The fetch loops *)

Lemma questionsLoop_spec fetch cats acc :
  questionsLoop fetch cats acc
  = (acc.1 ++ (cats ≫= λ c, default [] (fetch (cat_id c))),
     acc.2 ++ (cat_id <$> filter (λ c, fetch (cat_id c) = None) cats)).
Proof.
  revert acc. induction cats as [|c cats IH]; intros [qs warned].
  - cbn. by rewrite !app_nil_r.
  - cbn [questionsLoop]. rewrite IH, filter_cons. unfold pushFetched.
    destruct (fetch (cat_id c)) as [items|] eqn:Hf; cbn; rewrite ?Hf; cbn.
    + rewrite decide_False by done. by rewrite <- app_assoc.
    + rewrite decide_True by done. cbn. by rewrite <- app_assoc.
Qed.

Lemma questionsQueryFn_spec fetch cats :
  questionsQueryFn fetch cats
  = (cats ≫= λ c, default [] (fetch (cat_id c)),
     cat_id <$> filter (λ c, fetch (cat_id c) = None) cats).
Proof.
  unfold questionsQueryFn. destruct cats as [|c cats]; [done|].
  cbn [length Nat.eqb]. by rewrite questionsLoop_spec.
Qed.

Lemma questionWorkTasksLoop_spec fetch qs acc :
  questionWorkTasksLoop fetch qs acc
  = (acc.1 ++ (qs ≫= λ q, default [] (fetch (q_id q))),
     acc.2 ++ (q_id <$> filter (λ q, fetch (q_id q) = None) qs)).
Proof.
  revert acc. induction qs as [|q qs IH]; intros [ls warned].
  - cbn. by rewrite !app_nil_r.
  - cbn [questionWorkTasksLoop]. rewrite IH, filter_cons. unfold pushFetched.
    destruct (fetch (q_id q)) as [items|] eqn:Hf; cbn; rewrite ?Hf; cbn.
    + rewrite decide_False by done. by rewrite <- app_assoc.
    + rewrite decide_True by done. cbn. by rewrite <- app_assoc.
Qed.

Lemma questionWorkTasksQueryFn_spec fetch qs :
  questionWorkTasksQueryFn fetch qs
  = (qs ≫= λ q, default [] (fetch (q_id q)),
     q_id <$> filter (λ q, fetch (q_id q) = None) qs).
Proof.
  unfold questionWorkTasksQueryFn. destruct qs as [|q qs]; [done|].
  cbn [length Nat.eqb]. by rewrite questionWorkTasksLoop_spec.
Qed.

(** X16. The questions query tolerates failures: its result is the
    responses of the categories whose request succeeded, in category
    order, and it warns once about every category whose request failed.
    When the server answers each request with questions of the requested
    category only, a category whose request failed or came back empty is
    no step of the form, and each other fetched category with a question
    that passes the work-task filter is one. *)
Theorem failed_category_is_dropped
    (fetch : Z → option (list Question)) (env : Env) (fd : FormData) :
  questions env = (questionsQueryFn fetch (categories env)).1 →
  (∀ id qs q, fetch id = Some qs → q ∈ qs → categoryId q = id) →
  questions env = (categories env ≫= λ c, default [] (fetch (cat_id c)))
  ∧ (questionsQueryFn fetch (categories env)).2
    = cat_id <$> filter (λ c, fetch (cat_id c) = None) (categories env)
  ∧ (∀ c, c ∈ categories env →
       fetch (cat_id c) = None ∨ fetch (cat_id c) = Some [] →
       c ∉ categoriesWithQuestions env fd)
  ∧ (∀ c qs q, c ∈ categories env → fetch (cat_id c) = Some qs → q ∈ qs →
       q ∈ filteredQuestions env fd → c ∈ categoriesWithQuestions env fd).
Proof.
  intros Hqs Hserver. rewrite questionsQueryFn_spec in Hqs |- *.
  cbn [fst snd] in *. split; [done|]. split; [done|]. split.
  - intros c Hc Hfail [_ (q & Hq & Hcat)]%elem_of_planCategories.
    apply elem_of_filteredQuestions in Hq. rewrite Hqs in Hq.
    apply list_elem_of_bind in Hq as (c' & Hq & Hc').
    destruct (fetch (cat_id c')) as [qs'|] eqn:Hf';
      [|by apply not_elem_of_nil in Hq].
    cbn in Hq. pose proof (Hserver _ _ _ Hf' Hq) as Hid.
    rewrite Hcat in Hid. rewrite <- Hid in Hf'.
    destruct Hfail as [Hfail|Hfail]; rewrite Hfail in Hf'; [done|].
    injection Hf' as <-. by apply not_elem_of_nil in Hq.
  - intros c qs q Hc Hf Hq Hvis. apply elem_of_planCategories.
    split; [done|]. exists q. split; [done|]. by apply (Hserver _ qs).
Qed.

(** X17. The link query fails open: when the request for the work tasks
    of a question fails, and the server answers the other requests with
    links of the requested question only, that question has no link in
    the collected table and is shown under every work task. *)
Theorem failed_links_show_question
    (fetch : Z → option (list QuestionWorkTask)) (env : Env) (fd : FormData)
    (q : Question) :
  allQuestionWorkTasks env
  = (questionWorkTasksQueryFn fetch (questions env)).1 →
  (∀ id ls l, fetch id = Some ls → l ∈ ls → questionId l = id) →
  q ∈ questions env →
  fetch (q_id q) = None →
  (∀ l, l ∈ allQuestionWorkTasks env → questionId l ≠ q_id q)
  ∧ q ∈ filteredQuestions env fd.
Proof.
  intros Hlinks Hserver Hq Hfail.
  rewrite questionWorkTasksQueryFn_spec in Hlinks. cbn [fst] in Hlinks.
  assert (∀ l, l ∈ allQuestionWorkTasks env → questionId l ≠ q_id q)
    as Hnone.
  { intros l Hl Hid. rewrite Hlinks in Hl.
    apply list_elem_of_bind in Hl as (q' & Hl & Hq').
    destruct (fetch (q_id q')) as [ls|] eqn:Hf;
      [|by apply not_elem_of_nil in Hl].
    cbn in Hl. pose proof (Hserver _ _ _ Hf Hl) as Hid'.
    rewrite Hid in Hid'. rewrite <- Hid' in Hf. congruence. }
  split; [done|].
  unfold filteredQuestions, filterQuestions. destruct (_ || _); [done|].
  apply elem_of_filter_callback. split; [done|].
  unfold question_visible.
  rewrite (proj2 (filter_length_zero
                    (λ qwt, questionId qwt =? q_id q)
                    (allQuestionWorkTasks env))); [done|].
  apply Forall_forall. intros l Hl. apply Z.eqb_neq. by apply Hnone.
Qed.

(** ** The request helpers *)

Import QueryClient.

Lemma ok_range res : ok res = true ↔ 200 ≤ status res ≤ 299.
Proof. unfold ok. rewrite andb_true_iff, !Z.leb_le. tauto. Qed.

Lemma throwIfResNotOk_ok res b :
  ok res = true → throwIfResNotOk res b = (Returned (), b).
Proof. unfold throwIfResNotOk. by intros ->. Qed.

Lemma throwIfResNotOk_not_ok res b :
  ok res = false → ∃ message, (throwIfResNotOk res b).1 = Thrown message.
Proof. unfold throwIfResNotOk. intros ->. cbn. by eexists. Qed.

Lemma throwIfResNotOk_authToken res b :
  localStorage (throwIfResNotOk res b).2 !! "authToken"
  = localStorage b !! "authToken".
Proof.
  unfold throwIfResNotOk. destruct (negb (ok res)); [|done]. cbn [snd].
  destruct (status res =? 401); [|done]. cbn [localStorage].
  by rewrite !lookup_delete_ne.
Qed.

Lemma withToken_same b b' h :
  localStorage b' !! "authToken" = localStorage b !! "authToken" →
  withToken b' h = withToken b h.
Proof. unfold withToken. by intros ->. Qed.

(** X18. [throwIfResNotOk] lets a response with a status in 200-299
    through without touching the browser, and throws on every other
    status with the message "status: text", the text being the body or,
    for an empty body, the status text. Only on status 401 it changes
    the browser: it removes the three items [auth_token], [auth_user]
    and [auth_tenant] and nothing else, and sends the page to [/login].
    The item [authToken], the one the requests read their bearer token
    from, is never removed. *)
Theorem throwIfResNotOk_effect (res : Response) (b : Browser) :
  let result := throwIfResNotOk res b in
  (200 ≤ status res ≤ 299 → result = (Returned (), b))
  ∧ (¬ 200 ≤ status res ≤ 299 →
     result.1
     = Thrown (lit (pretty (status res)) ++ lit ": "
               ++ (if decide (body res = []) then statusText res
                   else body res)))
  ∧ (status res ≠ 401 → result.2 = b)
  ∧ (status res = 401 →
     href result.2 = lit "/login"
     ∧ ∀ key, localStorage result.2 !! key
              = if decide (key ∈ ["auth_token"; "auth_user"; "auth_tenant"])
                then None else localStorage b !! key)
  ∧ localStorage result.2 !! "authToken" = localStorage b !! "authToken".
Proof.
  intros result. subst result.
  split; [|split; [|split; [|split]]].
  - intros Hok%ok_range. by apply throwIfResNotOk_ok.
  - intros Hnot. unfold throwIfResNotOk.
    destruct (ok res) eqn:Hok; [by apply ok_range in Hok|]. cbn [negb fst].
    by destruct (body res).
  - intros Hne. unfold throwIfResNotOk.
    destruct (negb (ok res)); [|done]. cbn [snd].
    by destruct (Z.eqb_spec (status res) 401).
  - intros H401. unfold throwIfResNotOk.
    assert (ok res = false) as ->.
    { apply not_true_iff_false. rewrite ok_range. lia. }
    cbn [negb snd]. rewrite H401. cbn [Z.eqb Pos.eqb href localStorage].
    split; [done|]. intros key.
    destruct (decide (key ∈ _)) as [Hin|Hout].
    + rewrite !elem_of_cons in Hin.
      destruct Hin as [->|[->|[->|Hin]]];
        [| |by rewrite lookup_delete_eq|by apply not_elem_of_nil in Hin].
      * rewrite lookup_delete_ne, lookup_delete_ne by done.
        apply lookup_delete_eq.
      * rewrite lookup_delete_ne by done. apply lookup_delete_eq.
    + rewrite !not_elem_of_cons in Hout. destruct Hout as (? & ? & ? & _).
      by rewrite !lookup_delete_ne.
  - apply throwIfResNotOk_authToken.
Qed.

Section QueryClientFacts.
Context {Data Json : Type}.
Variable truthy : Data → bool.
Variable stringify : Data → jsstring.
Variable json : Response → Outcome Json.
Variable fetch : Request → Outcome Response.

Lemma apiRequest_authToken args b :
  localStorage (apiRequest truthy stringify fetch args b).2 !! "authToken"
  = localStorage b !! "authToken".
Proof.
  unfold apiRequest. destruct (fetch _) as [res|message]; [|done].
  pose proof (throwIfResNotOk_authToken res b) as Hkeep.
  by destruct (throwIfResNotOk res b) as [[[]|message] b'].
Qed.

(** X19. [apiRequest] returns the response exactly when the network
    delivered one with a status in 200-299, and then leaves the browser
    as it was; a network failure is rethrown without touching the
    browser. The legacy and the options call format give the same
    request and the same result. Whatever the outcome, a status 401
    included, the next request carries the same [Authorization] header
    as this one. *)
Theorem apiRequest_outcome (args : ApiArgs) (b : Browser) :
  let req := apiRequest_request truthy stringify args b in
  let result := apiRequest truthy stringify fetch args b in
  (∀ res, result.1 = Returned res ↔
          fetch req = Returned res ∧ 200 ≤ status res ≤ 299)
  ∧ (∀ res, result.1 = Returned res → result.2 = b)
  ∧ (∀ message, fetch req = Thrown message → result = (Thrown message, b))
  ∧ (∀ method url data,
       apiRequest truthy stringify fetch (Legacy method url data) b
       = apiRequest truthy stringify fetch (Options url method data) b)
  ∧ (∀ args',
       apiRequest_request truthy stringify args' result.2
       = apiRequest_request truthy stringify args' b).
Proof.
  intros req result. subst req result.
  split; [|split; [|split; [|split]]].
  - intros res. unfold apiRequest.
    destruct (fetch _) as [res'|message]; [|by split; [|intros [? _]]].
    destruct (ok res') eqn:Hok.
    + rewrite throwIfResNotOk_ok by done. cbn [fst].
      apply ok_range in Hok. split; [by intros [= ->] | by intros [[= ->] _]].
    + destruct (throwIfResNotOk_not_ok res' b Hok) as [message Hm].
      destruct (throwIfResNotOk res' b) as [[[]|message'] b'];
        [done|]. cbn [fst]. split; [done|].
      intros [[= ->] Hrange%ok_range]. congruence.
  - intros res. unfold apiRequest.
    destruct (fetch _) as [res'|message]; [|done].
    destruct (ok res') eqn:Hok.
    + by rewrite throwIfResNotOk_ok.
    + destruct (throwIfResNotOk_not_ok res' b Hok) as [message Hm].
      by destruct (throwIfResNotOk res' b) as [[[]|message'] b'].
  - intros message Hf. unfold apiRequest. by rewrite Hf.
  - done.
  - intros args'. unfold apiRequest_request.
    destruct args' as [m u data|u m data];
      by rewrite (withToken_same _ _ _ (apiRequest_authToken args b)).
Qed.

(** X20. On a status 401 the query function built with [returnNull]
    returns [null] without throwing and without touching the browser (no
    item removed, no redirect), while the one built with [throw] throws
    and leaves the page at [/login]. On every other status the two
    behave alike, and the default query function of the exported client
    is the [throw] one. *)
Theorem getQueryFn_unauthorized (queryKey0 : jsstring) (b : Browser) :
  let req := query_request queryKey0 b in
  (∀ res, fetch req = Returned res → status res = 401 →
     getQueryFn json fetch returnNull queryKey0 b = (Returned None, b)
     ∧ (∃ message,
          (getQueryFn json fetch throw queryKey0 b).1 = Thrown message)
     ∧ href (getQueryFn json fetch throw queryKey0 b).2 = lit "/login")
  ∧ ((∀ res, fetch req = Returned res → status res ≠ 401) →
     getQueryFn json fetch returnNull queryKey0 b
     = getQueryFn json fetch throw queryKey0 b)
  ∧ getQueryFn json fetch throw queryKey0 b
    = match defaultQueryFn json fetch queryKey0 b with
      | (Returned value, b') => (Returned (Some value), b')
      | (Thrown message, b') => (Thrown message, b')
      end.
Proof.
  intros req. subst req. split; [|split].
  - intros res Hf H401. unfold getQueryFn. rewrite Hf, H401.
    cbn [is_returnNull andb Z.eqb Pos.eqb]. split; [done|].
    unfold throwIfResNotOk.
    assert (ok res = false) as ->.
    { apply not_true_iff_false. rewrite ok_range. lia. }
    cbn [negb]. rewrite H401. cbn [Z.eqb Pos.eqb fst snd href].
    split; [by eexists | done].
  - intros Hne. unfold getQueryFn.
    destruct (fetch _) as [res|message] eqn:Hf; [|done].
    cbn [is_returnNull andb].
    by destruct (Z.eqb_spec (status res) 401) as [H401|_];
      [destruct (Hne res eq_refl)|].
  - unfold getQueryFn, defaultQueryFn.
    destruct (fetch _) as [res|message]; [|done]. cbn [is_returnNull andb].
    destruct (throwIfResNotOk res b) as [[[]|message] b']; [|done].
    by destruct (json res).
Qed.

End QueryClientFacts.


(** ** Instances of the further properties *)

Lemma navigation_in_range_witness :
  inRange env_station_demo (handleNext env_station_demo st_unticked).1.
Proof.
  apply (navigation_in_range env_station_demo st_unticked).
  split; by_evaluation.
Defined.

Lemma previous_undoes_next_witness :
  handlePrevious (handleNext env_station_demo st_identified).1
  = st_identified.
Proof.
  apply (previous_undoes_next env_station_demo st_identified).
  - by_evaluation.
  - by_evaluation.
  - by_evaluation.
Defined.

Lemma button_label_matches_click_witness :
  handleNext env_station_demo st_last_step
  = if showsSubmit env_station_demo st_last_step
    then (st_last_step,
          [Mutate (submitData env_station_demo (formData st_last_step))])
    else ({| currentStep := currentStep st_last_step + 1;
             formData := formData st_last_step |}, []).
Proof.
  refine (proj1 (button_label_matches_click env_station_demo st_last_step
                   _) _).
  - by_evaluation.
  - by_evaluation.
Defined.

Lemma fresh_form_cannot_send_witness :
  ∃ rest,
    handleNext env_station_demo (openedState env_station_demo)
    = (openedState env_station_demo,
       [toast_missing (label_operatorName :: rest)]).
Proof.
  apply (fresh_form_cannot_send env_station_demo st_identified).
  right. right. reflexivity.
Defined.

Lemma answer_updates_one_entry_witness :
  missingFieldsOf env_station_demo
    (withFormData st_unticked
       (onResponseChange (q_id q_check) (VBool true) (formData st_unticked)))
  = label_question <$>
      filter (λ q, q ≠ q_check ∧ answer_missing (formData st_unticked) q)
             (renderedQuestions env_station_demo st_unticked).
Proof.
  apply (answer_updates_one_entry env_station_demo st_unticked
           cat_kontroll q_check (VBool true)).
  - by_evaluation.
  - reflexivity.
  - apply (bool_decide_unpack _). by vm_compute.
  - intros q Hq Hid. apply list_elem_of_In in Hq. vm_compute in Hq.
    destruct Hq as [<-|[<-|[]]]; [reflexivity|].
    vm_compute in Hid. discriminate Hid.
  - intros [_ Hm]. vm_compute in Hm. by apply Hm.
Defined.

Lemma widget_values_accepted_witness :
  answer_missing
    (onResponseChange (q_id q_check) (VBool false) (formData st_identified))
    q_check.
Proof.
  apply (widget_values_accepted (formData st_identified) q_check
           (VBool false)); [reflexivity|].
  split; [reflexivity|]. left. split; reflexivity.
Defined.

Lemma complete_demo :
  complete env_station_demo (formData st_last_step).
Proof.
  split; [reflexivity|]. intros q Hq _.
  apply list_elem_of_In in Hq. vm_compute in Hq.
  destruct Hq as [<-|[<-|[]]]; intros [_ Hm]; vm_compute in Hm.
  - by apply Hm.
  - by destruct Hm as [|[|]].
Qed.

Lemma complete_form_submits_witness :
  clickNextTimes env_station_demo
    {| currentStep := 2; formData := formData st_last_step |} 2
  = ({| currentStep := 3; formData := formData st_last_step |},
     [Mutate (submitData env_station_demo (formData st_last_step))]).
Proof.
  apply (complete_form_submits env_station_demo (formData st_last_step)).
  exact complete_demo.
Defined.

Lemma sent_payloads_are_complete_witness :
  ∃ fd,
    submitData env_station_demo (formData st_last_step)
    = submitData env_station_demo fd
    ∧ complete env_station_demo fd
    ∧ trim (operatorName fd) ≠ []
    ∧ (opt_flag includeWorkTasks (currentChecklist env_station_demo fd) = true
       → truthy_id (workTaskId fd) = true)
    ∧ (opt_flag includeShifts (currentChecklist env_station_demo fd) = true
       → truthy_id (shiftId fd) = true).
Proof.
  apply (sent_payloads_are_complete env_station_demo choices_demo
           session_demo).
  - apply (bool_decide_unpack _). by vm_compute.
  - apply (bool_decide_unpack _). by vm_compute.
  - assert ((run env_station_demo choices_demo
               (openedState env_station_demo) session_demo).2
            = [Mutate (submitData env_station_demo (formData st_last_step))])
      as -> by (vm_compute; reflexivity).
    apply list_elem_of_singleton. reflexivity.
Defined.

Lemma failed_category_is_dropped_witness :
  {| cat_id := 10; cat_name := lit "Safety" |}
    ∉ categoriesWithQuestions env_fetched_demo fd_filter_demo.
Proof.
  apply (failed_category_is_dropped fetch_questions_demo env_fetched_demo
           fd_filter_demo).
  - reflexivity.
  - intros id qs q Hf Hq. unfold fetch_questions_demo in Hf.
    destruct (Z.eqb_spec id 11) as [->|]; [|discriminate Hf].
    injection Hf as <-. apply list_elem_of_singleton in Hq. by subst q.
  - apply (bool_decide_unpack _). by vm_compute.
  - left. reflexivity.
Defined.

Lemma failed_links_show_question_witness :
  q_count ∈ filteredQuestions env_links_demo fd_filter_demo.
Proof.
  apply (failed_links_show_question fetch_links_demo env_links_demo
           fd_filter_demo q_count).
  - reflexivity.
  - intros id ls l Hf Hl. unfold fetch_links_demo in Hf.
    destruct (Z.eqb_spec id 102) as [->|]; [|discriminate Hf].
    injection Hf as <-. apply list_elem_of_singleton in Hl. by subst l.
  - apply (bool_decide_unpack _). by vm_compute.
  - reflexivity.
Defined.
